(** * Eversee surveillance monitor (app.py): model and verified properties

    The development embeds the capture-and-describe loop of [app.py]:
    [encode_image], [describe_image], [safe_read], [surveillance_loop],
    the module-level list [analysis_logs] and the [/logs] handler.

    Python strings are lists of code points, Python integers are [Z],
    exceptions are explicit outcomes, and the camera, the clock, the image
    libraries and the inference service are an environment [Env] whose
    answers may depend on the whole history of effects performed so far. *)

From Stdlib Require Import String Ascii DecimalString ZArith NArith Bool Lia List.
Import ListNotations.

Local Open Scope Z_scope.

(** ** Python strings *)

Definition pystr := list N.

(** A literal of the source, as code points. *)
Definition py (s : string) : pystr := map N_of_ascii (list_ascii_of_string s).

(** [str(n)] for an integer. *)
Definition str_of_int (n : Z) : pystr := py (NilZero.string_of_int (Z.to_int n)).

Fixpoint pystr_eqb (a b : pystr) : bool :=
  match a, b with
  | [], [] => true
  | x :: a', y :: b' => N.eqb x y && pystr_eqb a' b'
  | _, _ => false
  end.

(** [str.isspace] on one code point (the Unicode whitespace table of CPython). *)
Definition isspace (c : N) : bool :=
  ((9 <=? c) && (c <=? 13) || (28 <=? c) && (c <=? 32) || (c =? 133) || (c =? 160)
   || (c =? 5760) || (8192 <=? c) && (c <=? 8202) || (c =? 8232) || (c =? 8233)
   || (c =? 8239) || (c =? 8287) || (c =? 12288))%N.

Fixpoint lstrip (s : pystr) : pystr :=
  match s with
  | [] => []
  | c :: s' => if isspace c then lstrip s' else s
  end.

Definition rstrip (s : pystr) : pystr := rev (lstrip (rev s)).

(** [s.strip()] with no argument. *)
Definition strip (s : pystr) : pystr := rstrip (lstrip s).

(** [a or b] on strings: the empty string is falsy. *)
Definition str_or (a b : pystr) : pystr :=
  match a with
  | [] => b
  | _ :: _ => a
  end.

(** ** Python values, exceptions and outcomes *)

(** The values an inference response can be made of. *)
#[local] Set Warnings "-register-all".
Inductive PyVal : Type :=
| PyNone
| PyBool (b : bool)
| PyInt (n : Z)
| PyStr (s : pystr)
| PyList (l : list PyVal)
| PyDict (d : list (pystr * PyVal)).
#[local] Set Warnings "register-all".

(** Exceptions. [Exc cls msg] is an instance of a subclass [cls] of
    [Exception]; [KeyboardInterrupt] and [SystemExit] derive from
    [BaseException] only, so [except Exception] does not catch them. *)
Inductive Exn : Type :=
| Exc (cls msg : pystr)
| KeyboardInterrupt
| SystemExit.

(** [str(e)], as printed by line 44. *)
Definition exn_str (e : Exn) : pystr :=
  match e with
  | Exc _ msg => msg
  | KeyboardInterrupt => []
  | SystemExit => []
  end.

(** How a call ends: it returns, it raises, or (for the unbounded loop run
    with a bound on its iterations) it is still running when the bound is
    reached. *)
Inductive Outcome (A : Type) : Type :=
| Ok (a : A)
| Raise (e : Exn)
| Running.

Arguments Ok {A} a.
Arguments Raise {A} e.
Arguments Running {A}.

(** [type(v).__name__]. *)
Definition type_name (v : PyVal) : pystr :=
  match v with
  | PyNone => py "NoneType"
  | PyBool _ => py "bool"
  | PyInt _ => py "int"
  | PyStr _ => py "str"
  | PyList _ => py "list"
  | PyDict _ => py "dict"
  end.

(** The [AttributeError] of a method call on a value that has no such
    method. *)
Definition AttributeError (v : PyVal) (method : string) : Exn :=
  Exc (py "AttributeError")
      (py "'" ++ type_name v ++ py "' object has no attribute '" ++ py method ++ py "'").

Fixpoint dict_get (d : list (pystr * PyVal)) (key : pystr) (default : PyVal) : PyVal :=
  match d with
  | [] => default
  | (k, v) :: d' => if pystr_eqb k key then v else dict_get d' key default
  end.

(** [v.get(key, default)]: only a mapping has the method. *)
Definition method_get (v : PyVal) (key : pystr) (default : PyVal) : Outcome PyVal :=
  match v with
  | PyDict d => Ok (dict_get d key default)
  | _ => Raise (AttributeError v "get")
  end.

(** [v.strip()]: only a string has the method. *)
Definition method_strip (v : PyVal) : Outcome pystr :=
  match v with
  | PyStr s => Ok (strip s)
  | _ => Raise (AttributeError v "strip")
  end.

(** Sequencing of calls that only return or raise. *)
Definition obind {A B : Type} (o : Outcome A) (k : A -> Outcome B) : Outcome B :=
  match o with
  | Ok a => k a
  | Raise e => Raise e
  | Running => Running
  end.

(** The text of line 42's fallback. *)
Definition fallback : pystr := py "Everything looks normal.".

(** [response.get("message", {}).get("content", "")]. *)
Definition response_content (response : PyVal) : Outcome PyVal :=
  obind (method_get response (py "message") (PyDict [])) (fun message =>
  method_get message (py "content") (PyStr [])).

(** The whole expression of line 42 on a response that [ollama.chat]
    returned: [<content>.strip() or "Everything looks normal."]. *)
Definition response_text (response : PyVal) : Outcome pystr :=
  obind (response_content response) (fun content =>
  obind (method_strip content) (fun stripped =>
  Ok (str_or stripped fallback))).

(** ** Log entries and the module-level store *)

Record LogEntry : Type := mkLogEntry {
  frame_number : Z;
  timestamp : pystr;
  description : pystr
}.

(** The bound of line 88. *)
Definition capacity : nat := 100.

(** [list.append] (line 87). *)
Definition list_append {A : Type} (l : list A) (x : A) : list A := l ++ [x].

(** Lines 88-89 on the list value: [if len(l) > 100: l.pop(0)]. *)
Definition evict_if_over {A : Type} (l : list A) : list A :=
  if (Z.of_nat capacity <? Z.of_nat (length l)) then tl l else l.

(** Lines 87-89 on the list value. *)
Definition log_append {A : Type} (l : list A) (x : A) : list A :=
  evict_if_over (list_append l x).

(** The [n] most recent elements of [l], oldest first. *)
Definition most_recent {A : Type} (n : nat) (l : list A) : list A :=
  skipn (length l - n) l.

(** ** The environment and the machine state *)

(** A capture object ([cv2.VideoCapture]) is named by a number. *)
Definition Handle := nat.

(** What the program does to the outside world and to the shared list, in
    the order it does it. *)
Inductive Event : Type :=
| EvPrint (msg : pystr)
| EvOpen (url : pystr) (h : Handle)
| EvIsOpened (h : Handle) (opened : bool)
| EvRead (h : Handle) (ret : bool)
| EvRelease (h : Handle)
| EvSleep (secs : Z)
| EvNow (ts : pystr)
| EvChat (model prompt image : pystr)
| EvAppend (e : LogEntry)
| EvPop (e : LogEntry).

(** The libraries the program calls.  The camera, the clock and the
    inference service answer as a function of the history of events before
    the call; the image functions are pure and may raise.  An answer
    [Running] is a call that never returns.  [stdout_encodes] tells which
    characters beyond ASCII the encoding of [sys.stdout] has a code for,
    and [stdout_error] is the text of the [UnicodeEncodeError] it raises on
    a line it cannot encode. *)
Record Env (Frame Image : Type) : Type := mkEnv {
  cap_read : list Event -> Handle -> bool * option Frame;
  cap_isOpened : list Event -> Handle -> bool;
  strftime_now : list Event -> pystr;
  ollama_chat : list Event -> pystr -> pystr -> pystr -> Outcome PyVal;
  cv2_cvtColor : Frame -> Outcome Frame;
  Image_fromarray : Frame -> Outcome Image;
  Image_save_jpeg : Image -> Outcome (list N);
  b64encode : list N -> pystr;
  stdout_encodes : N -> bool;
  stdout_error : pystr -> pystr
}.

Arguments cap_read {Frame Image} _ _ _.
Arguments cap_isOpened {Frame Image} _ _ _.
Arguments strftime_now {Frame Image} _ _.
Arguments ollama_chat {Frame Image} _ _ _ _ _.
Arguments cv2_cvtColor {Frame Image} _ _.
Arguments Image_fromarray {Frame Image} _ _.
Arguments Image_save_jpeg {Frame Image} _ _.
Arguments b64encode {Frame Image} _ _.
Arguments stdout_encodes {Frame Image} _ _.
Arguments stdout_error {Frame Image} _ _.

(** The module-level list [analysis_logs], the history of events, and the
    local variables [cap] and [frame_count] of [surveillance_loop]. *)
Record State : Type := mkState {
  trace : list Event;
  analysis_logs : list LogEntry;
  next_handle : Handle;
  cap : Handle;
  frame_count : Z
}.

(** The state when the module has been loaded (line 20). *)
Definition initial_state : State :=
  {| trace := []; analysis_logs := []; next_handle := O; cap := O; frame_count := 0 |}.

Definition with_trace (s : State) (t : list Event) : State :=
  {| trace := t; analysis_logs := analysis_logs s; next_handle := next_handle s;
     cap := cap s; frame_count := frame_count s |}.

Definition with_logs (s : State) (l : list LogEntry) : State :=
  {| trace := trace s; analysis_logs := l; next_handle := next_handle s;
     cap := cap s; frame_count := frame_count s |}.

Definition with_next_handle (s : State) (h : Handle) : State :=
  {| trace := trace s; analysis_logs := analysis_logs s; next_handle := h;
     cap := cap s; frame_count := frame_count s |}.

Definition with_cap (s : State) (h : Handle) : State :=
  {| trace := trace s; analysis_logs := analysis_logs s; next_handle := next_handle s;
     cap := h; frame_count := frame_count s |}.

Definition with_frame_count (s : State) (n : Z) : State :=
  {| trace := trace s; analysis_logs := analysis_logs s; next_handle := next_handle s;
     cap := cap s; frame_count := n |}.

Definition emit_event (s : State) (ev : Event) : State :=
  with_trace s (trace s ++ [ev]).

(** ** The monad of the program: state, exceptions, bounded running *)

Definition M (A : Type) : Type := State -> Outcome A * State.

Definition ret {A : Type} (a : A) : M A := fun s => (Ok a, s).

Definition bind {A B : Type} (m : M A) (k : A -> M B) : M B :=
  fun s =>
    match m s with
    | (Ok a, s') => k a s'
    | (Raise e, s') => (Raise e, s')
    | (Running, s') => (Running, s')
    end.

Definition lift {A : Type} (o : Outcome A) : M A := fun s => (o, s).

Declare Scope py_scope.
Delimit Scope py_scope with py.
Notation "x <- c1 ;; c2" := (bind c1 (fun x => c2))
  (at level 61, c1 at next level, right associativity) : py_scope.
Notation "' pat <- c1 ;; c2" := (bind c1 (fun x => match x with pat => c2 end))
  (at level 61, pat pattern, c1 at next level, right associativity) : py_scope.
Notation "c1 ;; c2" := (bind c1 (fun _ => c2))
  (at level 61, right associativity) : py_scope.
Local Open Scope py_scope.

(** [try: body except Exception as e: handler e]. *)
Definition try_except_Exception {A : Type} (body : M A) (handler : Exn -> M A) : M A :=
  fun s =>
    match body s with
    | (Raise (Exc cls msg), s') => handler (Exc cls msg) s'
    | r => r
    end.

(** [try: body except KeyboardInterrupt: handler]. *)
Definition try_except_KeyboardInterrupt {A : Type} (body : M A) (handler : M A) : M A :=
  fun s =>
    match body s with
    | (Raise KeyboardInterrupt, s') => handler s'
    | r => r
    end.

(** [try: body finally: final].  The final block runs when the body has
    returned or raised, not while it is still running. *)
Definition try_finally {A : Type} (body : M A) (final : M unit) : M A :=
  fun s =>
    match body s with
    | (Running, s') => (Running, s')
    | (r, s') =>
        match final s' with
        | (Ok _, s'') => (r, s'')
        | (Raise e, s'') => (Raise e, s'')
        | (Running, s'') => (Running, s'')
        end
    end.

(** [while True: body], run for at most [fuel] iterations. *)
Fixpoint while_true (fuel : nat) (body : M unit) : M unit :=
  match fuel with
  | O => fun s => (Running, s)
  | S fuel' => body ;; while_true fuel' body
  end.

(** ** Configuration (lines 15-16) *)

Definition CAMERA_URL : pystr := py "cctv_tg.mp4".
Definition MODEL_NAME : pystr := py "moondream".

Definition newline : pystr := [10%N].

(** The f-string of lines 32-35. *)
Definition prompt (frame_number : Z) : pystr :=
  newline
  ++ py "You are monitoring a live CCTV frame. Analyze and provide a concise, actionable description."
  ++ newline ++ py "Frame number: " ++ str_of_int frame_number ++ newline.

(** ** The program *)

Section Program.

Context {Frame Image : Type}.
Variable env : Env Frame Image.

(** *** Library calls *)

(** A character every encoding of [sys.stdout] has a code for. *)
Definition is_ascii (c : N) : bool := (c <? 128)%N.

Definition encodable (c : N) : bool := is_ascii c || stdout_encodes env c.

(** The line can be written to [sys.stdout]. *)
Definition printable (text : pystr) : bool := forallb encodable text.

(** [print(msg)]: the line is written, or [UnicodeEncodeError] is raised
    and nothing is written when [sys.stdout] cannot encode it. *)
Definition print (msg : pystr) : M unit :=
  fun s =>
    if printable msg then (Ok tt, emit_event s (EvPrint msg))
    else (Raise (Exc (py "UnicodeEncodeError") (stdout_error env msg)), s).

(** [cv2.VideoCapture(url, cv2.CAP_FFMPEG)]: a new capture object. *)
Definition VideoCapture (url : pystr) : M Handle :=
  fun s =>
    let h := next_handle s in
    (Ok h, with_next_handle (emit_event s (EvOpen url h)) (S h)).

Definition isOpened (h : Handle) : M bool :=
  fun s =>
    let opened := cap_isOpened env (trace s) h in
    (Ok opened, emit_event s (EvIsOpened h opened)).

(** [cap.read()]: the pair [(ret, frame)]. *)
Definition read (h : Handle) : M (bool * option Frame) :=
  fun s =>
    let r := cap_read env (trace s) h in
    (Ok r, emit_event s (EvRead h (fst r))).

Definition release (h : Handle) : M unit :=
  fun s => (Ok tt, emit_event s (EvRelease h)).

Definition sleep (secs : Z) : M unit :=
  fun s => (Ok tt, emit_event s (EvSleep secs)).

(** [datetime.now().strftime("%Y-%m-%d %H:%M:%S")]. *)
Definition now : M pystr :=
  fun s =>
    let ts := strftime_now env (trace s) in
    (Ok ts, emit_event s (EvNow ts)).

(** [ollama.chat(model=..., messages=[{"role": "user", "content": prompt,
    "images": [image]}], stream=False)]. *)
Definition chat (model prompt image : pystr) : M PyVal :=
  fun s =>
    (ollama_chat env (trace s) model prompt image,
     emit_event s (EvChat model prompt image)).

(** *** The shared list and the local variables *)

Definition logs_append (e : LogEntry) : M unit :=
  fun s => (Ok tt, emit_event (with_logs s (list_append (analysis_logs s) e)) (EvAppend e)).

Definition logs_len : M Z :=
  fun s => (Ok (Z.of_nat (length (analysis_logs s))), s).

(** [analysis_logs.pop(0)]. *)
Definition logs_pop0 : M LogEntry :=
  fun s =>
    match analysis_logs s with
    | [] => (Raise (Exc (py "IndexError") (py "pop from empty list")), s)
    | e :: rest => (Ok e, emit_event (with_logs s rest) (EvPop e))
    end.

Definition get_cap : M Handle := fun s => (Ok (cap s), s).
Definition set_cap (h : Handle) : M unit := fun s => (Ok tt, with_cap s h).
Definition get_frame_count : M Z := fun s => (Ok (frame_count s), s).
Definition set_frame_count (n : Z) : M unit := fun s => (Ok tt, with_frame_count s n).

(** *** Lines 25-29 *)

(** [BytesIO] and [getvalue] are folded into [Image_save_jpeg]; the
    function touches neither the camera nor the shared list. *)
Definition encode_image (image : Frame) : Outcome pystr :=
  obind (cv2_cvtColor env image) (fun rgb =>
  obind (Image_fromarray env rgb) (fun pil_image =>
  obind (Image_save_jpeg env pil_image) (fun jpeg =>
  Ok (b64encode env jpeg)))).

(** *** Lines 31-45 *)

Definition describe_image (base64_image : pystr) (frame_number : Z) : M pystr :=
  try_except_Exception
    (response <- chat MODEL_NAME (prompt frame_number) base64_image ;;
     lift (response_text response))
    (fun e =>
       print (py "Error describing image: " ++ exn_str e) ;;
       ret fallback).

(** The answer of the inference service to the call [describe_image]
    makes in state [s], and the states after the call and after line 44. *)
Definition chat_answer (s : State) (img : pystr) (n : Z) : Outcome PyVal :=
  ollama_chat env (trace s) MODEL_NAME (prompt n) img.

Definition after_chat (s : State) (img : pystr) (n : Z) : State :=
  emit_event s (EvChat MODEL_NAME (prompt n) img).

(** After line 44, when the line was written. *)
Definition after_error (s : State) (e : Exn) : State :=
  emit_event s (EvPrint (py "Error describing image: " ++ exn_str e)).

(** Whatever the inference service makes the program print can be written
    to [sys.stdout]: the message of an [Exception] it raises (line 44) and
    the text line 42 takes out of a response it returns (line 91). *)
Definition answers_printable : Prop :=
  forall t m p i,
    match ollama_chat env t m p i with
    | Ok resp =>
        match response_text resp with
        | Ok d => printable d = true
        | _ => True
        end
    | Raise (Exc _ msg) => printable msg = true
    | _ => True
    end.

(** *** Lines 47-57 *)

Definition safe_read (cap : Handle) (url : pystr) : M (Handle * option Frame) :=
  '(ret_, frame) <- read cap ;;
  if negb ret_ then
    print (py "Reconnecting camera...") ;;
    release cap ;;
    sleep 1 ;;
    cap <- VideoCapture url ;;
    '(ret_, frame) <- read cap ;;
    if negb ret_ then ret (cap, None) else ret (cap, frame)
  else ret (cap, frame).

(** What [safe_read] does between a failed read on [h] and the read on the
    new capture object [h'] (lines 48-53). *)
Definition reconnect_events (h : Handle) (url : pystr) (h' : Handle) : list Event :=
  [EvRead h false; EvPrint (py "Reconnecting camera..."); EvRelease h; EvSleep 1;
   EvOpen url h'].

(** *** Lines 62-96 *)

(** Lines 87-89. *)
Definition record_entry (log_entry : LogEntry) : M unit :=
  logs_append log_entry ;;
  n <- logs_len ;;
  if 100 <? n then (logs_pop0 ;; ret tt) else ret tt.

(** Lines 76-91: what the loop does with a frame it obtained. *)
Definition process_frame (frame : Frame) : M unit :=
  n <- get_frame_count ;;
  set_frame_count (n + 1) ;;
  frame_count <- get_frame_count ;;
  timestamp <- now ;;
  encoded_img <- lift (encode_image frame) ;;
  description <- describe_image encoded_img frame_count ;;
  record_entry (mkLogEntry frame_count timestamp description) ;;
  print (py "Frame " ++ str_of_int frame_count ++ py ": " ++ description).

(** Lines 72-91: one iteration of [while True]. *)
Definition loop_body : M unit :=
  c <- get_cap ;;
  '(c', frame) <- safe_read c CAMERA_URL ;;
  set_cap c' ;;
  match frame with
  | None => ret tt
  | Some frame => process_frame frame
  end.

Definition started_message : pystr :=
  py "Surveillance Monitor started with " ++ MODEL_NAME ++ py ".".

(** Lines 70-96 around the loop: [try: body], the handler of line 93 and
    the final block of line 96. *)
Definition guarded (body : M unit) : M unit :=
  try_finally
    (try_except_KeyboardInterrupt body (print (py "Monitoring stopped.")))
    (c <- get_cap ;; release c).

Definition surveillance_loop (fuel : nat) : M unit :=
  print started_message ;;
  c <- VideoCapture CAMERA_URL ;;
  set_cap c ;;
  opened <- isOpened c ;;
  if negb opened then
    print (py "Error: Cannot open camera stream.")
  else
    set_frame_count 0 ;;
    guarded (while_true fuel loop_body).

(** The state when line 65 is reached, the answer of [cap.isOpened()]
    there, and the state after line 65. *)
Definition at_open (s : State) : State :=
  with_cap
    (with_next_handle
       (emit_event (emit_event s (EvPrint started_message))
                   (EvOpen CAMERA_URL (next_handle s)))
       (S (next_handle s)))
    (next_handle s).

Definition camera_opened (s : State) : bool :=
  cap_isOpened env (trace (at_open s)) (next_handle s).

Definition after_startup (s : State) : State :=
  emit_event (at_open s) (EvIsOpened (next_handle s) (camera_opened s)).

(** *** Lines 101-103: the [/logs] handler hands the list to [jsonify]. *)
Definition get_logs : M (list LogEntry) :=
  fun s => (Ok (analysis_logs s), s).

End Program.

(** ** Observations on a history of events *)

(** The entries appended to the list, in the order of their appends. *)
Fixpoint appended (t : list Event) : list LogEntry :=
  match t with
  | [] => []
  | EvAppend e :: t' => e :: appended t'
  | _ :: t' => appended t'
  end.

(** The entries removed from the list, in the order of their removals. *)
Fixpoint evicted (t : list Event) : list LogEntry :=
  match t with
  | [] => []
  | EvPop e :: t' => e :: evicted t'
  | _ :: t' => evicted t'
  end.

Definition is_read (ev : Event) : bool :=
  match ev with EvRead _ _ => true | _ => false end.

Definition is_open (ev : Event) : bool :=
  match ev with EvOpen _ _ => true | _ => false end.

(** The integers [first], [first + 1], ..., [first + n - 1]. *)
Fixpoint Zseq (first : Z) (n : nat) : list Z :=
  match n with
  | O => []
  | S n' => first :: Zseq (first + 1) n'
  end.

(** The length of the list after each of its mutations, in order, for a
    history that starts with a list of length [n]. *)
Fixpoint lengths_from (n : Z) (t : list Event) : list Z :=
  match t with
  | [] => []
  | EvAppend _ :: t' => (n + 1) :: lengths_from (n + 1) t'
  | EvPop _ :: t' => (n - 1) :: lengths_from (n - 1) t'
  | _ :: t' => lengths_from n t'
  end.

(** The value of the list after each of its mutations, in order, for a
    history that starts with the list [l]: [append] (line 87) adds the entry
    at the end and [pop(0)] (line 89) removes the first entry. *)
Fixpoint logs_from (l : list LogEntry) (t : list Event) : list (list LogEntry) :=
  match t with
  | [] => []
  | EvAppend e :: t' => list_append l e :: logs_from (list_append l e) t'
  | EvPop _ :: t' => tl l :: logs_from (tl l) t'
  | _ :: t' => logs_from l t'
  end.

(** [value] is a window on the entries [all] appended in a run: the entries
    appended up to some time, without the oldest of them; with [k] entries
    appended by then it holds the last [min k 100] of them, or one more
    (between line 87 and line 89). *)
Definition Window (all value : list LogEntry) : Prop :=
  exists old later,
    all = old ++ value ++ later
    /\ (Nat.min (length old + length value) capacity <= length value
        <= Nat.min (length old + length value) (capacity + 1))%nat.

(** The length of the list after a history that started with an empty list. *)
Definition net_length (t : list Event) : Z :=
  Z.of_nat (length (appended t)) - Z.of_nat (length (evicted t)).

Definition quiet_event (ev : Event) : bool :=
  match ev with
  | EvAppend _ | EvPop _ => false
  | _ => true
  end.

(** What the claims about the store depend on: the list, the entries
    appended to it and removed from it so far, and the lengths it went
    through. *)
Definition store_obs (s : State)
  : list LogEntry * list LogEntry * list LogEntry * list Z :=
  (analysis_logs s, appended (trace s), evicted (trace s), lengths_from 0 (trace s)).

(** The same with the frame counter. *)
Definition obs (s : State)
  : list LogEntry * list LogEntry * list LogEntry * list Z * Z :=
  (store_obs s, frame_count s).

(** A computation is quiet when it leaves the list, its record and the
    counter as they are, however it ends. *)
Definition Quiet {A : Type} (m : M A) : Prop :=
  forall s, obs (snd (m s)) = obs s.

(** What holds of the store whenever no append is under way. *)
Record StoreInv (s : State) : Prop := mkStoreInv {
  inv_history : appended (trace s) = evicted (trace s) ++ analysis_logs s;
  inv_bound : (length (analysis_logs s) <= capacity)%nat;
  inv_lengths : Forall (fun n => n <= Z.of_nat capacity + 1) (lengths_from 0 (trace s));
  inv_numbers : map frame_number (appended (trace s))
                = Zseq 1 (length (appended (trace s)));
  inv_evictions : evicted (trace s) = [] \/ length (analysis_logs s) = capacity
}.

(** What holds in addition at the head of the loop. *)
Definition LoopInv (s : State) : Prop :=
  StoreInv s /\ frame_count s = Z.of_nat (length (appended (trace s))).

(** What holds of the values the list has taken: the last of them is the
    list as it is, and each was a window on the entries appended. *)
Definition ValuesInv (s : State) : Prop :=
  last (logs_from [] (trace s)) [] = analysis_logs s
  /\ Forall (Window (appended (trace s))) (logs_from [] (trace s)).

(** A sequence of appends to the store: lines 87-89 run once per entry. *)
Fixpoint record_entries (es : list LogEntry) : M unit :=
  match es with
  | [] => ret tt
  | e :: es' => record_entry e ;; record_entries es'
  end.

(** ** Scripted environments

    A camera, an encoder and an inference service that follow a script, to
    run the program on concrete inputs. *)

Record Script : Type := mkScript {
  script_opened : bool;
  script_reads : list bool;
  script_encode : Outcome unit;
  script_chats : list (Outcome PyVal)
}.

Definition count_events (p : Event -> bool) (t : list Event) : nat :=
  length (filter p t).

Definition is_chat (ev : Event) : bool :=
  match ev with EvChat _ _ _ => true | _ => false end.

(** The [n]-th read yields frame number [n] when the script says so and no
    frame otherwise; the [n]-th inference call answers as scripted, and with
    an empty response once the script is over. *)
Definition scripted_with_stdout (enc : N -> bool) (sc : Script) : Env N N :=
  {| cap_read := fun t _ =>
       let n := count_events is_read t in
       if nth n (script_reads sc) false then (true, Some (N.of_nat n)) else (false, None);
     cap_isOpened := fun _ _ => script_opened sc;
     strftime_now := fun _ => py "2025-01-01 00:00:00";
     ollama_chat := fun t _ _ _ => nth (count_events is_chat t) (script_chats sc) (Ok (PyDict []));
     cv2_cvtColor := fun f => obind (script_encode sc) (fun _ => Ok f);
     Image_fromarray := fun f => Ok f;
     Image_save_jpeg := fun i => Ok [i];
     b64encode := fun b => b;
     stdout_encodes := enc;
     stdout_error := fun _ => py "codec can't encode character" |}.

(** The same with a [sys.stdout] that encodes every character. *)
Definition scripted (sc : Script) : Env N N :=
  scripted_with_stdout (fun _ => true) sc.


(** A [sys.stdout] whose encoding is UTF-8: every code point has a code but
    the surrogates U+D800 to U+DFFF. *)
Definition utf8_stdout (c : N) : bool := negb ((55296 <=? c)%N && (c <=? 57343)%N).


(** A response whose message has the given content. *)
Definition response_with (content : PyVal) : PyVal :=
  PyDict [(py "message", PyDict [(py "role", PyStr (py "assistant")); (py "content", content)])].

(** An inference service whose answer ends in a lone surrogate (U+D83D,
    the first half of an emoji cut in two). *)
Definition lone_surrogate : Script :=
  {| script_opened := true; script_reads := [true; true];
     script_encode := Ok tt;
     script_chats := [Ok (response_with (PyStr (py "ok " ++ [55357%N])))] |}.

(** A camera that delivers a frame at every read, a working encoder and an
    inference service that always returns an empty response. *)
Definition steady (n : nat) : Script :=
  {| script_opened := true; script_reads := repeat true n;
     script_encode := Ok tt; script_chats := [] |}.

(** A camera that opens and delivers frames, and an encoder that raises. *)
Definition broken_encoder : Script :=
  {| script_opened := true; script_reads := [true; true; true];
     script_encode := Raise (Exc (py "cv2.error") (py "cvtColor failed"));
     script_chats := [] |}.

(** A camera whose first read fails and whose read after the reopen succeeds. *)
Definition fails_once : Script :=
  {| script_opened := true; script_reads := [false; true];
     script_encode := Ok tt; script_chats := [] |}.

(** A camera that cannot be opened. *)
Definition unavailable : Script :=
  {| script_opened := false; script_reads := [true; true];
     script_encode := Ok tt; script_chats := [] |}.

(** Three frames described "A", "B", "C", a cycle without a frame, then a
    frame for which the inference call raises (the scenario of the design
    document). *)
Definition end_to_end : Script :=
  {| script_opened := true;
     script_reads := [true; true; true; false; false; true];
     script_encode := Ok tt;
     script_chats := [Ok (response_with (PyStr (py "A")));
                      Ok (response_with (PyStr (py " B ")));
                      Ok (response_with (PyStr (py "C")));
                      Raise (Exc (py "ConnectionError") (py "connection refused"))] |}.

(** A camera that never delivers a frame. *)
Definition dark : Script :=
  {| script_opened := true; script_reads := [];
     script_encode := Ok tt; script_chats := [] |}.

Definition numbered (n : Z) : LogEntry :=
  {| frame_number := n; timestamp := []; description := fallback |}.

(** The entries numbered 1 to 101. *)
Definition hundred_and_one : list LogEntry := map numbered (Zseq 1 101).

(** The program just after the camera has been opened, before any read. *)
Definition opened_state : State := at_open initial_state.

(** ** Handles, inference calls and descriptions in a history *)

(** The capture objects created, and those released, in order. *)
Fixpoint opened_handles (t : list Event) : list Handle :=
  match t with
  | [] => []
  | EvOpen _ h :: t' => h :: opened_handles t'
  | _ :: t' => opened_handles t'
  end.

Fixpoint released_handles (t : list Event) : list Handle :=
  match t with
  | [] => []
  | EvRelease h :: t' => h :: released_handles t'
  | _ :: t' => released_handles t'
  end.

Definition is_handle_event (ev : Event) : bool :=
  match ev with
  | EvOpen _ _ | EvRelease _ => true
  | _ => false
  end.

Definition is_sleep (ev : Event) : bool :=
  match ev with EvSleep _ => true | _ => false end.

(** What the pacing of reconnects depends on: the objects created and the
    pauses made. *)
Definition pace_obs (s : State) : list Handle * list Event :=
  (opened_handles (trace s), filter is_sleep (trace s)).

(** What the discipline of the capture objects depends on. *)
Definition handle_obs (s : State) : list Handle * list Handle * Handle * Handle :=
  (opened_handles (trace s), released_handles (trace s), next_handle s, cap s).

(** The number of inference calls made so far. *)
Definition calls_made (s : State) : nat := count_events is_chat (trace s).

(** A computation keeps an observation of the state when the observation
    is the same after it, however it ends. *)
Definition Keeps {X A : Type} (O : State -> X) (m : M A) : Prop :=
  forall s, O (snd (m s)) = O s.

(** A description as line 42 leaves it: not empty, no whitespace at either
    end. *)
Definition well_formed (d : pystr) : Prop :=
  d <> []
  /\ (forall c r, d = c :: r -> isspace c = false)
  /\ (forall c r, rev d = c :: r -> isspace c = false).

(** [key in d] for a mapping. *)
Fixpoint dict_mem (d : list (pystr * PyVal)) (key : pystr) : bool :=
  match d with
  | [] => false
  | (k, _) :: d' => pystr_eqb k key || dict_mem d' key
  end.

(** ** The dashboard script (lines 143-167)

    What [fetchLogs] computes from the array [/logs] returned.  A
    JavaScript string is its sequence of UTF-16 code units;
    [String.prototype.toLowerCase] is a parameter. *)

Definition jsstr := list N.

Fixpoint starts_with (s sub : jsstr) {struct sub} : bool :=
  match sub, s with
  | [], _ => true
  | _ :: _, [] => false
  | y :: sub', x :: s' => N.eqb x y && starts_with s' sub'
  end.

(** [s.includes(sub)]. *)
Fixpoint includes (s sub : jsstr) : bool :=
  starts_with s sub
  || match s with
     | [] => false
     | _ :: s' => includes s' sub
     end.

(** An element of the array: [{frame_number, timestamp, description}]. *)
Record JsLog : Type := mkJsLog {
  log_frame_number : Z;
  log_timestamp : jsstr;
  log_description : jsstr
}.

(** The values of the variable [priority] (lines 154-156). *)
Inductive Priority : Type := Normal | Alert | Critical.

Definition priority_name (p : Priority) : jsstr :=
  match p with
  | Normal => py "normal"
  | Alert => py "alert"
  | Critical => py "critical"
  end.

(** What the page shows after [fetchLogs]: the two counters and the cards,
    first card first. *)
Record Page : Type := mkPage {
  totalLogs : nat;
  recentAlerts : nat;
  cards : list (JsLog * Priority)
}.

Section Dashboard.

Variable toLowerCase : jsstr -> jsstr.

(** Lines 154-156. *)
Definition priority_of (log : JsLog) : Priority :=
  let d := toLowerCase (log_description log) in
  if includes d (py "critical") || includes d (py "emergency") then Critical
  else if includes d (py "alert") || includes d (py "warning") || includes d (py "error")
       then Alert
       else Normal.

(** The predicate of the filter of lines 147-150; the empty string is falsy. *)
Definition counts_as_alert (l : JsLog) : bool :=
  match log_description l with
  | [] => false
  | _ :: _ =>
      includes (toLowerCase (log_description l)) (py "alert")
      || includes (toLowerCase (log_description l)) (py "warning")
  end.

(** Lines 146-164 on the parsed array. *)
Definition fetchLogs (data : list JsLog) : Page :=
  {| totalLogs := length data;
     recentAlerts := length (filter counts_as_alert data);
     cards := map (fun log => (log, priority_of log)) (rev data) |}.

End Dashboard.

(** A card with the ALERT or the CRITICAL badge. *)
Definition has_badge (c : JsLog * Priority) : bool :=
  match snd c with
  | Normal => false
  | _ => true
  end.

(** Lower case on the code units of ASCII letters, for examples. *)
Definition ascii_lower (s : jsstr) : jsstr :=
  map (fun c => if ((65 <=? c) && (c <=? 90))%N then (c + 32)%N else c) s.

(** * Properties *)

(** ** Printing *)

Section Printing.

Context {Frame Image : Type}.
Variable env : Env Frame Image.

Lemma printable_app (a b : pystr) :
  printable env (a ++ b) = printable env a && printable env b.
Proof. apply forallb_app. Qed.

Lemma ascii_printable (text : pystr) :
  forallb is_ascii text = true -> printable env text = true.
Proof.
  unfold printable, encodable. induction text as [|c text IH]; simpl; [reflexivity|].
  destruct (is_ascii c); simpl; [exact IH|discriminate].
Qed.

Lemma print_ok (msg : pystr) (s : State) :
  printable env msg = true -> print env msg s = (Ok tt, emit_event s (EvPrint msg)).
Proof. intros H. unfold print. rewrite H. reflexivity. Qed.

(** A line of ASCII characters is always written. *)
Lemma print_ascii (msg : pystr) (s : State) :
  forallb is_ascii msg = true -> print env msg s = (Ok tt, emit_event s (EvPrint msg)).
Proof. intros H. apply print_ok, ascii_printable, H. Qed.

Lemma print_refused (msg : pystr) (s : State) :
  printable env msg = false ->
  print env msg s = (Raise (Exc (py "UnicodeEncodeError") (stdout_error env msg)), s).
Proof. intros H. unfold print. rewrite H. reflexivity. Qed.

(** However it ends, [print] changes the state by at most the line
    written. *)
Lemma print_cases (msg : pystr) (s : State) :
  print env msg s = (Ok tt, emit_event s (EvPrint msg))
  \/ print env msg s = (Raise (Exc (py "UnicodeEncodeError") (stdout_error env msg)), s).
Proof. unfold print. destruct (printable env msg); auto. Qed.

End Printing.

Lemma string_of_uint_ascii (d : Decimal.uint) :
  forallb is_ascii (py (NilEmpty.string_of_uint d)) = true.
Proof. induction d; simpl; try reflexivity; exact IHd. Qed.

(** [str(n)] is made of digits and a sign. *)
Lemma str_of_int_ascii (n : Z) : forallb is_ascii (str_of_int n) = true.
Proof.
  unfold str_of_int, NilZero.string_of_int, NilZero.string_of_uint.
  destruct (Z.to_int n) as [d|d]; destruct d; try reflexivity;
    apply (string_of_uint_ascii d).
Qed.

(** ** Lists: the most recent elements *)

Lemma most_recent_all {A : Type} (n : nat) (l : list A) :
  (length l <= n)%nat -> most_recent n l = l.
Proof.
  intros H. unfold most_recent.
  replace (length l - n)%nat with O by lia. reflexivity.
Qed.

Lemma most_recent_cons {A : Type} (n : nat) (x : A) (l : list A) :
  (n <= length l)%nat -> most_recent n (x :: l) = most_recent n l.
Proof.
  intros H. unfold most_recent.
  replace (length (x :: l) - n)%nat with (S (length l - n)) by (simpl length; lia).
  reflexivity.
Qed.

Lemma most_recent_app {A : Type} (n : nat) (a b : list A) :
  (n <= length b)%nat -> most_recent n (a ++ b) = most_recent n b.
Proof.
  intros H. induction a as [|x a IH]; [reflexivity|].
  simpl. rewrite most_recent_cons; [exact IH|].
  rewrite length_app. lia.
Qed.

Lemma most_recent_length {A : Type} (n : nat) (l : list A) :
  length (most_recent n l) = Nat.min n (length l).
Proof. unfold most_recent. rewrite length_skipn. lia. Qed.

(** ** The store: lines 87-89 on the list value *)

Lemma log_append_below {A : Type} (l : list A) (x : A) :
  (length l < capacity)%nat -> log_append l x = l ++ [x].
Proof.
  intros H. unfold log_append, evict_if_over, list_append.
  rewrite length_app. simpl length.
  destruct (Z.ltb_spec (Z.of_nat capacity) (Z.of_nat (length l + 1)));
    [unfold capacity in *; lia|reflexivity].
Qed.

Lemma log_append_full {A : Type} (l : list A) (x : A) :
  (capacity <= length l)%nat -> log_append l x = tl l ++ [x].
Proof.
  intros H. unfold log_append, evict_if_over, list_append.
  rewrite length_app. simpl length.
  destruct (Z.ltb_spec (Z.of_nat capacity) (Z.of_nat (length l + 1)));
    [|unfold capacity in *; lia].
  destruct l; [simpl in H; unfold capacity in H; lia|reflexivity].
Qed.

Lemma log_append_length {A : Type} (l : list A) (x : A) :
  (length l <= capacity)%nat -> (length (log_append l x) <= capacity)%nat.
Proof.
  intros H. destruct (Nat.lt_ge_cases (length l) capacity) as [Hlt|Hge].
  - rewrite log_append_below by exact Hlt. rewrite length_app. simpl. lia.
  - rewrite log_append_full by exact Hge.
    destruct l; [simpl in Hge; unfold capacity in Hge; lia|].
    simpl tl. rewrite length_app. simpl in *. lia.
Qed.

Lemma log_append_most_recent {A : Type} (l rest : list A) (x : A) :
  (length l <= capacity)%nat ->
  most_recent capacity (log_append l x ++ rest) = most_recent capacity (l ++ x :: rest).
Proof.
  intros H. destruct (Nat.lt_ge_cases (length l) capacity) as [Hlt|Hge].
  - rewrite log_append_below by exact Hlt. rewrite <- app_assoc. reflexivity.
  - rewrite log_append_full by exact Hge.
    destruct l as [|y l]; [simpl in Hge; unfold capacity in Hge; lia|].
    simpl tl. rewrite <- app_assoc. simpl app.
    rewrite most_recent_cons; [reflexivity|].
    rewrite length_app. simpl in *. lia.
Qed.

(** ** The store: lines 87-89 as run by the program *)

(** Below capacity the entry is appended and nothing is removed. *)
Lemma record_entry_below (e : LogEntry) (s : State) :
  (length (analysis_logs s) < capacity)%nat ->
  record_entry e s
  = (Ok tt, emit_event (with_logs s (analysis_logs s ++ [e])) (EvAppend e)).
Proof.
  intros H. unfold record_entry, bind, logs_append, logs_len, list_append.
  cbn [analysis_logs emit_event with_logs with_trace].
  rewrite length_app. change (length [e]) with 1%nat.
  destruct (Z.ltb_spec 100 (Z.of_nat (length (analysis_logs s) + 1)));
    [unfold capacity in H; lia|reflexivity].
Qed.

(** At capacity the entry is appended, then the head is popped. *)
Lemma record_entry_full (e x : LogEntry) (rest : list LogEntry) (s : State) :
  analysis_logs s = x :: rest ->
  (capacity <= length (analysis_logs s))%nat ->
  record_entry e s
  = (Ok tt,
     emit_event
       (with_logs (emit_event (with_logs s (analysis_logs s ++ [e])) (EvAppend e))
                  (rest ++ [e]))
       (EvPop x)).
Proof.
  intros Hl H. unfold record_entry, bind, logs_append, logs_len, logs_pop0, list_append.
  cbn [analysis_logs emit_event with_logs with_trace].
  rewrite length_app. change (length [e]) with 1%nat.
  destruct (Z.ltb_spec 100 (Z.of_nat (length (analysis_logs s) + 1)));
    [|unfold capacity in H; lia].
  rewrite Hl. reflexivity.
Qed.

(** In both cases the call returns and the list is [log_append] of the old one. *)
Lemma record_entry_logs (e : LogEntry) (s : State) :
  exists s', record_entry e s = (Ok tt, s')
             /\ analysis_logs s' = log_append (analysis_logs s) e
             /\ frame_count s' = frame_count s /\ cap s' = cap s.
Proof.
  destruct (Nat.lt_ge_cases (length (analysis_logs s)) capacity) as [Hlt|Hge].
  - eexists. split; [apply record_entry_below; exact Hlt|].
    rewrite log_append_below by exact Hlt. repeat split.
  - destruct (analysis_logs s) as [|x rest] eqn:Hl;
      [simpl in Hge; unfold capacity in Hge; lia|].
    eexists. split; [rewrite <- Hl in Hge; apply (record_entry_full e x rest s Hl Hge)|].
    rewrite log_append_full by exact Hge. repeat split.
Qed.

(** ** Stripping *)

Lemma lstrip_head (s : pystr) (c : N) (r : pystr) :
  lstrip s = c :: r -> isspace c = false.
Proof.
  induction s as [|x s IH]; simpl; [discriminate|].
  destruct (isspace x) eqn:Hx; [exact IH|].
  intros H. injection H as -> _. exact Hx.
Qed.

Lemma lstrip_suffix (s : pystr) :
  exists a, s = a ++ lstrip s.
Proof.
  induction s as [|x s [a IH]]; [exists []; reflexivity|].
  simpl. destruct (isspace x).
  - exists (x :: a). simpl. f_equal. exact IH.
  - exists []. reflexivity.
Qed.

Lemma rstrip_prefix (s : pystr) :
  exists a, s = rstrip s ++ a.
Proof.
  destruct (lstrip_suffix (rev s)) as [a Ha].
  exists (rev a). unfold rstrip.
  rewrite <- rev_app_distr, <- Ha, rev_involutive. reflexivity.
Qed.

Lemma lstrip_whitespace (s : pystr) :
  forallb isspace s = true -> lstrip s = [].
Proof.
  induction s as [|x s IH]; simpl; [reflexivity|].
  destruct (isspace x); simpl; [exact IH|discriminate].
Qed.

Lemma strip_head (s : pystr) (c : N) (r : pystr) :
  strip s = c :: r -> isspace c = false.
Proof.
  unfold strip. intros H.
  destruct (rstrip_prefix (lstrip s)) as [a Ha].
  rewrite H in Ha. simpl in Ha.
  exact (lstrip_head s c (r ++ a) Ha).
Qed.

Lemma strip_last (s : pystr) (c : N) (r : pystr) :
  rev (strip s) = c :: r -> isspace c = false.
Proof.
  unfold strip, rstrip. rewrite rev_involutive.
  apply lstrip_head.
Qed.

Lemma strip_whitespace (s : pystr) :
  forallb isspace s = true -> strip s = [].
Proof.
  intros H. unfold strip. rewrite (lstrip_whitespace s H). reflexivity.
Qed.

(** ** Line 42: extracting the description from a response *)

Lemma method_get_raises (v : PyVal) (key : pystr) (default : PyVal) :
  (exists r, method_get v key default = Ok r)
  \/ (exists cls msg, method_get v key default = Raise (Exc cls msg)).
Proof.
  destruct v; simpl;
    solve [left; eexists; reflexivity | right; do 2 eexists; reflexivity].
Qed.

Lemma method_strip_raises (v : PyVal) :
  (exists r, method_strip v = Ok r)
  \/ (exists cls msg, method_strip v = Raise (Exc cls msg)).
Proof.
  destruct v; simpl;
    solve [left; eexists; reflexivity | right; do 2 eexists; reflexivity].
Qed.

(** The extraction returns a string or raises an [Exception]: nothing else. *)
Lemma response_text_cases (response : PyVal) :
  (exists d, response_text response = Ok d)
  \/ (exists cls msg, response_text response = Raise (Exc cls msg)).
Proof.
  unfold response_text, response_content.
  destruct (method_get_raises response (py "message") (PyDict []))
    as [[m ->]|(c & msg & ->)]; simpl; [|eauto].
  destruct (method_get_raises m (py "content") (PyStr []))
    as [[content ->]|(c & msg & ->)]; simpl; [|eauto].
  destruct (method_strip_raises content) as [[r ->]|(c & msg & ->)]; simpl; eauto.
Qed.

(** What the extraction raises is an [AttributeError] whose text is ASCII. *)
Lemma response_text_raises_ascii (response : PyVal) (cls msg : pystr) :
  response_text response = Raise (Exc cls msg) ->
  cls = py "AttributeError" /\ forallb is_ascii msg = true.
Proof.
  unfold response_text, response_content.
  destruct response; simpl;
    try (intros H; injection H as <- <-; split; reflexivity).
  destruct (dict_get d (py "message") (PyDict [])) as [| | | | |m]; simpl;
    try (intros H; injection H as <- <-; split; reflexivity).
  destruct (dict_get m (py "content") (PyStr [])); simpl;
    try (intros H; injection H as <- <-; split; reflexivity).
  discriminate.
Qed.

(** What the extraction returns, when it returns. *)
Lemma response_text_ok (response : PyVal) (d : pystr) :
  response_text response = Ok d ->
  exists content,
    response_content response = Ok (PyStr content)
    /\ d = str_or (strip content) fallback.
Proof.
  unfold response_text.
  destruct (response_content response) as [v| |]; simpl; try discriminate.
  destruct v; simpl; try discriminate.
  intros H. injection H as <-. eauto.
Qed.

Lemma response_text_content (response : PyVal) (content : pystr) :
  response_content response = Ok (PyStr content) ->
  response_text response = Ok (str_or (strip content) fallback).
Proof. unfold response_text. intros ->. reflexivity. Qed.

Lemma fallback_shape :
  fallback <> []
  /\ (forall c r, fallback = c :: r -> isspace c = false)
  /\ (forall c r, rev fallback = c :: r -> isspace c = false).
Proof.
  split; [discriminate|].
  split; intros c r H; vm_compute in H; injection H as <- _; reflexivity.
Qed.

(** The description line 42 computes is never empty and has no whitespace
    at either end. *)
Lemma str_or_strip_shape (content : pystr) :
  let d := str_or (strip content) fallback in
  d <> []
  /\ (forall c r, d = c :: r -> isspace c = false)
  /\ (forall c r, rev d = c :: r -> isspace c = false).
Proof.
  destruct (strip content) as [|x t] eqn:Hs; simpl.
  - exact fallback_shape.
  - split; [discriminate|]. split; intros c r H.
    + apply (strip_head content c r). rewrite Hs. exact H.
    + apply (strip_last content c r). rewrite Hs. exact H.
Qed.

(** ** [describe_image] *)

Section Describer.

Context {Frame Image : Type}.
Variable env : Env Frame Image.

(** The line of line 44 can be written when the message of the exception
    can. *)
Lemma error_line_printable (msg : pystr) :
  printable env (py "Error describing image: " ++ msg) = printable env msg.
Proof.
  rewrite printable_app, (ascii_printable env (py "Error describing image: ") eq_refl).
  reflexivity.
Qed.

(** The line of line 91 can be written when the description can. *)
Lemma frame_line_printable (n : Z) (d : pystr) :
  printable env (py "Frame " ++ str_of_int n ++ py ": " ++ d) = printable env d.
Proof.
  rewrite !printable_app, (ascii_printable env (py "Frame ") eq_refl),
    (ascii_printable env (str_of_int n) (str_of_int_ascii n)),
    (ascii_printable env (py ": ") eq_refl).
  reflexivity.
Qed.

(** The inference call raised an [Exception] whose message can be written:
    it is printed, and the fallback is returned. *)
Lemma describe_image_chat_raises (img : pystr) (n : Z) (s : State) (cls msg : pystr) :
  chat_answer env s img n = Raise (Exc cls msg) ->
  printable env msg = true ->
  describe_image env img n s
  = (Ok fallback, after_error (after_chat s img n) (Exc cls msg)).
Proof.
  unfold chat_answer. intros H Hp.
  unfold describe_image, try_except_Exception, bind, chat. rewrite H.
  cbn [exn_str]. rewrite print_ok by (rewrite error_line_printable; exact Hp).
  reflexivity.
Qed.

(** The inference call raised an [Exception] whose message cannot be
    written: the [print] of line 44 raises inside the handler, and that
    exception leaves [describe_image]. *)
Lemma describe_image_unprintable (img : pystr) (n : Z) (s : State) (cls msg : pystr) :
  chat_answer env s img n = Raise (Exc cls msg) ->
  printable env msg = false ->
  describe_image env img n s
  = (Raise (Exc (py "UnicodeEncodeError")
                (stdout_error env (py "Error describing image: " ++ msg))),
     after_chat s img n).
Proof.
  unfold chat_answer. intros H Hp.
  unfold describe_image, try_except_Exception, bind, chat. rewrite H.
  cbn [exn_str]. rewrite print_refused by (rewrite error_line_printable; exact Hp).
  reflexivity.
Qed.

(** The inference call returned and the extraction returned. *)
Lemma describe_image_text (img : pystr) (n : Z) (s : State) (resp : PyVal) (d : pystr) :
  chat_answer env s img n = Ok resp ->
  response_text resp = Ok d ->
  describe_image env img n s = (Ok d, after_chat s img n).
Proof.
  unfold chat_answer. intros H Hd.
  unfold describe_image, try_except_Exception, bind, chat, lift. rewrite H, Hd. reflexivity.
Qed.

(** The inference call returned and the extraction raised. *)
Lemma describe_image_malformed (img : pystr) (n : Z) (s : State) (resp : PyVal)
      (cls msg : pystr) :
  chat_answer env s img n = Ok resp ->
  response_text resp = Raise (Exc cls msg) ->
  describe_image env img n s
  = (Ok fallback, after_error (after_chat s img n) (Exc cls msg)).
Proof.
  unfold chat_answer. intros H Hd.
  destruct (response_text_raises_ascii resp cls msg Hd) as [_ Hascii].
  unfold describe_image, try_except_Exception, bind, chat, lift. rewrite H, Hd.
  cbn [exn_str].
  rewrite print_ok
    by (rewrite error_line_printable; apply ascii_printable; exact Hascii).
  reflexivity.
Qed.

(** An exception that is not an [Exception], and a call that never
    returns, pass through. *)
Lemma describe_image_passes (img : pystr) (n : Z) (s : State) :
  chat_answer env s img n = Raise KeyboardInterrupt
  \/ chat_answer env s img n = Raise SystemExit
  \/ chat_answer env s img n = Running ->
  describe_image env img n s
  = (match chat_answer env s img n with
     | Ok _ => Running
     | Raise e => Raise e
     | Running => Running
     end, after_chat s img n).
Proof.
  unfold chat_answer.
  unfold describe_image, try_except_Exception, bind, chat, lift.
  intros [H|[H|H]]; rewrite H; reflexivity.
Qed.

End Describer.

(** ** Histories of events *)

Lemma appended_app (a b : list Event) :
  appended (a ++ b) = appended a ++ appended b.
Proof.
  induction a as [|ev a IH]; [reflexivity|].
  destruct ev; simpl; rewrite IH; reflexivity.
Qed.

Lemma evicted_app (a b : list Event) :
  evicted (a ++ b) = evicted a ++ evicted b.
Proof.
  induction a as [|ev a IH]; [reflexivity|].
  destruct ev; simpl; rewrite IH; reflexivity.
Qed.

Lemma lengths_from_app (a b : list Event) (n : Z) :
  lengths_from n (a ++ b) = lengths_from n a ++ lengths_from (n + net_length a) b.
Proof.
  revert n. induction a as [|ev a IH]; intros n.
  - simpl. f_equal. unfold net_length. simpl. lia.
  - assert (Hnet : forall k, k + net_length (ev :: a)
                             = k + match ev with
                                   | EvAppend _ => 1
                                   | EvPop _ => -1
                                   | _ => 0
                                   end + net_length a).
    { intros k. unfold net_length.
      destruct ev; cbn [appended evicted length]; lia. }
    rewrite Hnet.
    destruct ev; cbn [lengths_from app]; rewrite IH, ?Z.add_0_r; reflexivity.
Qed.

Lemma obs_emit_quiet (s : State) (ev : Event) :
  quiet_event ev = true -> obs (emit_event s ev) = obs s.
Proof.
  intros H. unfold obs, store_obs, emit_event. cbn [trace analysis_logs frame_count with_trace].
  rewrite appended_app, evicted_app, lengths_from_app.
  destruct ev; try discriminate; simpl; rewrite !app_nil_r; reflexivity.
Qed.

Lemma obs_split (a b : State) :
  obs a = obs b -> store_obs a = store_obs b /\ frame_count a = frame_count b.
Proof. unfold obs. intros H. split; congruence. Qed.

Lemma store_obs_emit_quiet (s : State) (ev : Event) :
  quiet_event ev = true -> store_obs (emit_event s ev) = store_obs s.
Proof. intros H. exact (proj1 (obs_split _ _ (obs_emit_quiet s ev H))). Qed.

Lemma store_obs_appended (a b : State) :
  store_obs a = store_obs b -> appended (trace a) = appended (trace b).
Proof. unfold store_obs. congruence. Qed.

(** ** Quiet computations *)

Section QuietRules.

Context {Frame Image : Type}.
Variable env : Env Frame Image.

Lemma Quiet_ret {A : Type} (a : A) : Quiet (ret a).
Proof. intros s. reflexivity. Qed.

Lemma Quiet_lift {A : Type} (o : Outcome A) : Quiet (lift o).
Proof. intros s. reflexivity. Qed.

Lemma Quiet_bind {A B : Type} (m : M A) (k : A -> M B) :
  Quiet m -> (forall a, Quiet (k a)) -> Quiet (bind m k).
Proof.
  intros Hm Hk s. unfold bind. specialize (Hm s).
  destruct (m s) as [[a|e|] s']; simpl in *; [|exact Hm|exact Hm].
  rewrite Hk. exact Hm.
Qed.

Lemma Quiet_try_except_Exception {A : Type} (body : M A) (handler : Exn -> M A) :
  Quiet body -> (forall e, Quiet (handler e)) -> Quiet (try_except_Exception body handler).
Proof.
  intros Hb Hh s. unfold try_except_Exception. specialize (Hb s).
  destruct (body s) as [[a|[cls msg| |]|] s']; simpl in *; try exact Hb.
  rewrite Hh. exact Hb.
Qed.

Lemma Quiet_print (msg : pystr) : Quiet (print env msg).
Proof.
  intros s. unfold print.
  destruct (printable env msg); [apply obs_emit_quiet|]; reflexivity.
Qed.

Lemma Quiet_VideoCapture (url : pystr) : Quiet (VideoCapture url).
Proof. intros s. apply (obs_emit_quiet s (EvOpen url (next_handle s))). reflexivity. Qed.

Lemma Quiet_isOpened (h : Handle) : Quiet (isOpened env h).
Proof. intros s. apply obs_emit_quiet. reflexivity. Qed.

Lemma Quiet_read (h : Handle) : Quiet (read env h).
Proof. intros s. apply obs_emit_quiet. reflexivity. Qed.

Lemma Quiet_release (h : Handle) : Quiet (release h).
Proof. intros s. apply obs_emit_quiet. reflexivity. Qed.

Lemma Quiet_sleep (secs : Z) : Quiet (sleep secs).
Proof. intros s. apply obs_emit_quiet. reflexivity. Qed.

Lemma Quiet_now : Quiet (now env).
Proof. intros s. apply obs_emit_quiet. reflexivity. Qed.

Lemma Quiet_chat (model prompt image : pystr) : Quiet (chat env model prompt image).
Proof. intros s. apply obs_emit_quiet. reflexivity. Qed.

Lemma Quiet_get_cap : Quiet get_cap.
Proof. intros s. reflexivity. Qed.

Lemma Quiet_set_cap (h : Handle) : Quiet (set_cap h).
Proof. intros s. reflexivity. Qed.

Lemma Quiet_get_logs : Quiet get_logs.
Proof. intros s. reflexivity. Qed.

End QuietRules.

Create HintDb quiet.
#[export] Hint Resolve Quiet_ret Quiet_lift Quiet_print Quiet_VideoCapture Quiet_isOpened
  Quiet_read Quiet_release Quiet_sleep Quiet_now Quiet_chat Quiet_get_cap Quiet_set_cap
  : quiet.

(** Splits a composed computation into its calls and closes each with the
    rules above. *)
Ltac quiet :=
  repeat match goal with
         | |- Quiet (bind _ _) => apply Quiet_bind; [|intros ?]
         | |- Quiet (try_except_Exception _ _) =>
             apply Quiet_try_except_Exception; [|intros ?]
         | |- Quiet (match ?x with _ => _ end) => destruct x
         | |- Quiet _ => solve [auto with quiet]
         end.

Section QuietProgram.

Context {Frame Image : Type}.
Variable env : Env Frame Image.

Lemma Quiet_safe_read (c : Handle) (url : pystr) : Quiet (safe_read env c url).
Proof. unfold safe_read. quiet. Qed.

Lemma Quiet_describe_image (img : pystr) (n : Z) : Quiet (describe_image env img n).
Proof. unfold describe_image. quiet. Qed.

(** [safe_read] has no path that raises: it returns a handle and a frame
    or [None]. *)
Lemma safe_read_returns (c : Handle) (url : pystr) (s : State) :
  exists c' frame s', safe_read env c url s = (Ok (c', frame), s').
Proof.
  unfold safe_read, bind, read, print, release, sleep, VideoCapture, ret.
  destruct (cap_read env (trace s) c) as [[|] fr]; simpl; [eauto|].
  match goal with
  | |- context [cap_read env ?t ?h] => destruct (cap_read env t h) as [[|] fr2]
  end; simpl; eauto.
Qed.


End QuietProgram.

(** ** The invariant of the store *)

Lemma Zseq_snoc (first : Z) (n : nat) :
  Zseq first (S n) = Zseq first n ++ [first + Z.of_nat n].
Proof.
  revert first. induction n as [|n IH]; intros first.
  - simpl. f_equal. lia.
  - change (Zseq first (S (S n))) with (first :: Zseq (first + 1) (S n)).
    rewrite IH. cbn [Zseq app]. do 3 f_equal. lia.
Qed.

Lemma Zseq_length (first : Z) (n : nat) : length (Zseq first n) = n.
Proof. revert first. induction n; intros; simpl; auto. Qed.

Lemma Zseq_nth (first : Z) (n i : nat) :
  (i < n)%nat -> nth i (Zseq first n) 0 = first + Z.of_nat i.
Proof.
  revert first i. induction n as [|n IH]; intros first i Hi; [lia|].
  destruct i as [|i]; simpl; [lia|].
  rewrite IH by lia. lia.
Qed.

Lemma StoreInv_obs (s s' : State) :
  store_obs s' = store_obs s -> StoreInv s -> StoreInv s'.
Proof.
  unfold store_obs. intros H [H1 H2 H3 H4 H5].
  injection H as Hl Ha He Hn.
  constructor; rewrite ?Hl, ?Ha, ?He, ?Hn; assumption.
Qed.

Lemma LoopInv_obs (s s' : State) :
  obs s' = obs s -> LoopInv s -> LoopInv s'.
Proof.
  unfold obs. intros H [Hs Hc].
  assert (Hs' : store_obs s' = store_obs s) by congruence.
  assert (Hc' : frame_count s' = frame_count s) by congruence.
  assert (Ha : appended (trace s') = appended (trace s))
    by (unfold store_obs in Hs'; congruence).
  split; [exact (StoreInv_obs s s' Hs' Hs)|].
  rewrite Hc', Ha. exact Hc.
Qed.

Lemma StoreInv_initial : LoopInv initial_state.
Proof.
  split; [constructor|]; simpl; try reflexivity; try (left; reflexivity);
    try apply Forall_nil.
  unfold capacity. lia.
Qed.

(** While the store is as the invariant says, the length of the list is
    the number of appends minus the number of removals. *)
Lemma StoreInv_net (s : State) :
  StoreInv s -> net_length (trace s) = Z.of_nat (length (analysis_logs s)).
Proof.
  intros [H _ _ _ _]. unfold net_length. rewrite H, length_app. lia.
Qed.

(** Lines 87-89 re-establish the invariant once the counter has been
    incremented for the entry. *)
Lemma record_entry_preserves (e : LogEntry) (s : State) :
  StoreInv s ->
  frame_count s = Z.of_nat (length (appended (trace s))) + 1 ->
  frame_number e = frame_count s ->
  exists s', record_entry e s = (Ok tt, s') /\ LoopInv s'
             /\ appended (trace s') = appended (trace s) ++ [e].
Proof.
  intros Hinv Hc He.
  pose proof (StoreInv_net s Hinv) as Hnet.
  destruct Hinv as [H1 H2 H3 H4 H5].
  assert (Hnum : map frame_number (appended (trace s) ++ [e])
                 = Zseq 1 (length (appended (trace s) ++ [e]))).
  { rewrite map_app, length_app, H4. simpl length. rewrite Nat.add_1_r, Zseq_snoc.
    cbn [map app]. do 2 f_equal. lia. }
  destruct (Nat.lt_ge_cases (length (analysis_logs s)) capacity) as [Hlt|Hge].
  - eexists. split; [apply record_entry_below; exact Hlt|].
    split; [split; [constructor|]|];
      cbn [trace analysis_logs frame_count emit_event with_logs with_trace];
      rewrite ?appended_app, ?evicted_app, ?lengths_from_app;
      cbn [appended evicted lengths_from]; rewrite ?app_nil_r.
    + rewrite H1, <- app_assoc. reflexivity.
    + rewrite length_app. simpl length. lia.
    + apply Forall_app. split; [exact H3|]. apply Forall_cons; [|apply Forall_nil].
      unfold capacity in *. lia.
    + exact Hnum.
    + destruct H5 as [H5|H5]; [left; exact H5|unfold capacity in *; lia].
    + rewrite length_app. simpl length. lia.
    + reflexivity.
  - destruct (analysis_logs s) as [|x rest] eqn:Hl;
      [simpl in Hge; unfold capacity in Hge; lia|].
    rewrite <- Hl in Hge.
    eexists. split; [apply (record_entry_full e x rest s Hl Hge)|].
    split; [split; [constructor|]|];
      cbn [trace analysis_logs frame_count emit_event with_logs with_trace];
      rewrite ?appended_app, ?evicted_app, ?lengths_from_app;
      cbn [appended evicted lengths_from]; rewrite ?app_nil_r.
    + rewrite H1, <- !app_assoc. reflexivity.
    + rewrite length_app. simpl length in *. lia.
    + rewrite <- app_assoc. apply Forall_app. split; [exact H3|].
      unfold net_length in *.
      rewrite appended_app, evicted_app, !length_app.
      cbn [appended evicted length]. simpl length in *.
      cbn [app]. apply Forall_cons; [|apply Forall_cons; [|apply Forall_nil]];
        unfold capacity in *; lia.
    + exact Hnum.
    + right. rewrite Hl in Hge. rewrite length_app. simpl length in *.
      unfold capacity in *. lia.
    + rewrite length_app. simpl length. lia.
    + reflexivity.
Qed.

(** ** One iteration of the loop *)

Section Iteration.

Context {Frame Image : Type}.
Variable env : Env Frame Image.

(** Lines 76-91 unfolded: the counter is incremented, the clock is read,
    and an exception of the encoder or of the describer ends the iteration
    before anything is appended; the [print] of line 91 comes last. *)
Lemma process_frame_run (f : Frame) (s : State) :
  process_frame env f s
  = let n := frame_count s + 1 in
    let ts := strftime_now env (trace s) in
    let s2 := emit_event (with_frame_count s n) (EvNow ts) in
    match encode_image env f with
    | Ok img =>
        match describe_image env img n s2 with
        | (Ok d, s3) =>
            match record_entry (mkLogEntry n ts d) s3 with
            | (Ok _, s4) => print env (py "Frame " ++ str_of_int n ++ py ": " ++ d) s4
            | (Raise e, s4) => (Raise e, s4)
            | (Running, s4) => (Running, s4)
            end
        | (Raise e, s3) => (Raise e, s3)
        | (Running, s3) => (Running, s3)
        end
    | Raise e => (Raise e, s2)
    | Running => (Running, s2)
    end.
Proof.
  unfold process_frame, bind, get_frame_count, set_frame_count, now, lift.
  cbn [frame_count trace with_frame_count emit_event with_trace].
  destruct (encode_image env f) as [img|e|]; reflexivity.
Qed.

(** Lines 72-91 unfolded. *)
Lemma loop_body_run (s : State) :
  loop_body env s
  = match safe_read env (cap s) CAMERA_URL s with
    | (Ok (c, None), s1) => (Ok tt, with_cap s1 c)
    | (Ok (c, Some f), s1) => process_frame env f (with_cap s1 c)
    | (Raise e, s1) => (Raise e, s1)
    | (Running, s1) => (Running, s1)
    end.
Proof.
  unfold loop_body, bind, get_cap, set_cap.
  destruct (safe_read env (cap s) CAMERA_URL s) as [[[c [f|]]|e|] s1]; reflexivity.
Qed.

(** With a frame: the counter goes up by one; the store keeps its
    invariant; and when the iteration completes, exactly one entry, numbered
    with the new counter, has been appended. *)
Lemma process_frame_inv (f : Frame) (s : State) :
  LoopInv s ->
  frame_count (snd (process_frame env f s)) = frame_count s + 1
  /\ StoreInv (snd (process_frame env f s))
  /\ (fst (process_frame env f s) = Ok tt ->
      LoopInv (snd (process_frame env f s))
      /\ exists e, frame_number e = frame_count s + 1
                   /\ appended (trace (snd (process_frame env f s)))
                      = appended (trace s) ++ [e]).
Proof.
  intros [Hinv Hc]. rewrite process_frame_run. cbv zeta.
  set (n := frame_count s + 1).
  set (ts := strftime_now env (trace s)).
  set (s2 := emit_event (with_frame_count s n) (EvNow ts)).
  assert (H2 : obs s2 = obs (with_frame_count s n))
    by (apply obs_emit_quiet; reflexivity).
  destruct (obs_split _ _ H2) as [Hs2 Hn2].
  change (store_obs s2 = store_obs s) in Hs2. change (frame_count s2 = n) in Hn2.
  destruct (encode_image env f) as [img|e|]; cbn [fst snd];
    try (split; [exact Hn2|split; [exact (StoreInv_obs _ _ Hs2 Hinv)|discriminate]]).
  pose proof (Quiet_describe_image env img n s2) as Hq.
  destruct (describe_image env img n s2) as [[d|e|] s3]; simpl in Hq;
    destruct (obs_split _ _ Hq) as [Hs3 Hn3];
    rewrite Hs2 in Hs3; rewrite Hn2 in Hn3;
    cbn [fst snd];
    try (split; [exact Hn3|split; [exact (StoreInv_obs _ _ Hs3 Hinv)|discriminate]]).
  pose proof (store_obs_appended _ _ Hs3) as Ha3.
  destruct (record_entry_preserves (mkLogEntry n ts d) s3) as (s4 & Hrun & Hinv4 & Happ).
  { exact (StoreInv_obs _ _ Hs3 Hinv). }
  { rewrite Hn3, Ha3. unfold n. lia. }
  { simpl. symmetry. exact Hn3. }
  rewrite Hrun.
  destruct (record_entry_logs (mkLogEntry n ts d) s3) as (s4' & Hrun' & _ & Hfc & _).
  assert (s4' = s4) by congruence. subst s4'.
  match goal with |- context [print env ?line s4] =>
    destruct (print_cases env line s4) as [Hp|Hp] end;
    rewrite Hp; cbn [fst snd].
  - set (s5 := emit_event s4 _).
    assert (H5 : obs s5 = obs s4) by (apply obs_emit_quiet; reflexivity).
    assert (Hinv5 : LoopInv s5) by exact (LoopInv_obs _ _ H5 Hinv4).
    split; [|split; [exact (proj1 Hinv5)|]].
    + rewrite (proj2 (obs_split _ _ H5)), Hfc. exact Hn3.
    + intros _. split; [exact Hinv5|].
      exists (mkLogEntry n ts d). split; [reflexivity|].
      rewrite (store_obs_appended _ _ (proj1 (obs_split _ _ H5))), Happ, Ha3.
      reflexivity.
  - split; [rewrite Hfc; exact Hn3|]. split; [exact (proj1 Hinv4)|discriminate].
Qed.

(** An iteration keeps the invariant of the store, and the invariant of the
    loop head when it completes. *)
Lemma loop_body_inv (s : State) :
  LoopInv s ->
  StoreInv (snd (loop_body env s))
  /\ (fst (loop_body env s) = Ok tt -> LoopInv (snd (loop_body env s))).
Proof.
  intros Hinv. rewrite loop_body_run.
  pose proof (Quiet_safe_read env (cap s) CAMERA_URL s) as Hq.
  destruct (safe_read env (cap s) CAMERA_URL s) as [[[c [f|]]|e|] s1]; simpl in Hq.
  - assert (H1 : LoopInv (with_cap s1 c)) by exact (LoopInv_obs s (with_cap s1 c) Hq Hinv).
    destruct (process_frame_inv f _ H1) as (_ & Hs & Hok).
    split; [exact Hs|]. intros H. exact (proj1 (Hok H)).
  - assert (H1 : LoopInv (with_cap s1 c)) by exact (LoopInv_obs s (with_cap s1 c) Hq Hinv).
    split; [exact (proj1 H1)|intros _; exact H1].
  - split; [|discriminate]. exact (proj1 (LoopInv_obs s _ Hq Hinv)).
  - split; [|discriminate]. exact (proj1 (LoopInv_obs s _ Hq Hinv)).
Qed.

Lemma while_true_inv (fuel : nat) (s : State) :
  LoopInv s -> StoreInv (snd (while_true fuel (loop_body env) s)).
Proof.
  revert s. induction fuel as [|fuel IH]; intros s Hinv; [exact (proj1 Hinv)|].
  simpl. unfold bind.
  destruct (loop_body_inv s Hinv) as [Hs Hok].
  destruct (loop_body env s) as [[[]|e|] s1]; simpl in *; try exact Hs.
  apply IH. apply Hok. reflexivity.
Qed.

End Iteration.

(** ** The whole loop *)

Section Loop.

Context {Frame Image : Type}.
Variable env : Env Frame Image.

(** The camera could not be opened: line 67 returns. *)
Lemma surveillance_loop_unavailable (fuel : nat) (s : State) :
  camera_opened env s = false ->
  surveillance_loop env fuel s
  = (Ok tt, emit_event (after_startup env s)
                       (EvPrint (py "Error: Cannot open camera stream."))).
Proof.
  intros H. unfold surveillance_loop, bind, VideoCapture, set_cap, isOpened.
  rewrite (print_ascii env started_message s eq_refl).
  cbn [trace emit_event with_trace with_next_handle with_cap next_handle].
  unfold camera_opened, at_open in H.
  cbn [trace emit_event with_trace with_next_handle with_cap next_handle] in H.
  rewrite H. cbn [negb]. rewrite print_ascii by reflexivity.
  unfold after_startup, camera_opened, at_open.
  cbn [trace emit_event with_trace with_next_handle with_cap next_handle].
  rewrite H. reflexivity.
Qed.

(** The camera was opened: the counter is set to 0 and the loop runs
    inside its handlers. *)
Lemma surveillance_loop_opened (fuel : nat) (s : State) :
  camera_opened env s = true ->
  surveillance_loop env fuel s
  = guarded env (while_true fuel (loop_body env))
      (with_frame_count (after_startup env s) 0).
Proof.
  intros H. unfold surveillance_loop, bind, VideoCapture, set_cap, isOpened,
    set_frame_count.
  rewrite (print_ascii env started_message s eq_refl).
  cbn [trace emit_event with_trace with_next_handle with_cap next_handle].
  unfold camera_opened, at_open in H.
  cbn [trace emit_event with_trace with_next_handle with_cap next_handle] in H.
  rewrite H. unfold after_startup, camera_opened, at_open.
  cbn [trace emit_event with_trace with_next_handle with_cap next_handle].
  rewrite H. reflexivity.
Qed.

Lemma obs_after_startup (s : State) : obs (after_startup env s) = obs s.
Proof.
  unfold after_startup. rewrite obs_emit_quiet by reflexivity.
  unfold at_open.
  change (obs (emit_event (emit_event s (EvPrint started_message))
                          (EvOpen CAMERA_URL (next_handle s))) = obs s).
  rewrite !obs_emit_quiet by reflexivity. reflexivity.
Qed.

(** The handlers around the loop touch neither the list nor its record,
    and they leave a loop that is still running alone. *)
Lemma guarded_store (body : M unit) (s : State) :
  store_obs (snd (guarded env body s)) = store_obs (snd (body s))
  /\ (fst (body s) = Running -> fst (guarded env body s) = Running).
Proof.
  unfold guarded, try_finally, try_except_KeyboardInterrupt, bind, get_cap, release.
  destruct (body s) as [[[]|[cls msg| |]|] s']; rewrite ?print_ascii by reflexivity;
    cbn [fst snd];
    (split; [|try discriminate; reflexivity]);
    rewrite ?store_obs_emit_quiet by reflexivity; reflexivity.
Qed.

(** From the start of the program the store keeps its invariant, however
    long the loop runs and however it ends. *)
Lemma surveillance_loop_inv (fuel : nat) :
  StoreInv (snd (surveillance_loop env fuel initial_state)).
Proof.
  pose proof StoreInv_initial as Hinit.
  pose proof (obs_after_startup initial_state) as Hst.
  destruct (camera_opened env initial_state) eqn:Ho.
  - rewrite (surveillance_loop_opened fuel _ Ho).
    apply (StoreInv_obs (snd (while_true fuel (loop_body env)
                                (with_frame_count (after_startup env initial_state) 0)))).
    + apply guarded_store.
    + apply while_true_inv.
      apply (LoopInv_obs initial_state); [|exact Hinit].
      destruct (obs_split _ _ Hst) as [H1 H2].
      unfold obs. f_equal; exact H1.
  - rewrite (surveillance_loop_unavailable fuel _ Ho). cbn [snd].
    apply (StoreInv_obs initial_state); [|exact (proj1 Hinit)].
    rewrite store_obs_emit_quiet by reflexivity.
    exact (proj1 (obs_split _ _ Hst)).
Qed.

(** An iteration ends by completing or by still running, provided the
    encoder returns, the inference call raises nothing but [Exception]s and
    what it makes the program print can be written. *)
Lemma loop_body_continues (s : State) :
  (forall f, exists b, encode_image env f = Ok b) ->
  (forall t m p i, ollama_chat env t m p i <> Raise KeyboardInterrupt
                   /\ ollama_chat env t m p i <> Raise SystemExit) ->
  answers_printable env ->
  fst (loop_body env s) = Ok tt \/ fst (loop_body env s) = Running.
Proof.
  intros Henc Hchat Hprint. rewrite loop_body_run.
  destruct (safe_read_returns env (cap s) CAMERA_URL s) as (c & fr & s1 & ->).
  destruct fr as [f|]; [|left; reflexivity].
  rewrite process_frame_run. cbv zeta.
  destruct (Henc f) as [img ->].
  match goal with |- context [describe_image env img ?n ?st] =>
    set (s2 := st); set (k := n) end.
  pose proof (Hprint (trace s2) MODEL_NAME (prompt k) img) as Hp.
  fold (chat_answer env s2 img k) in Hp.
  assert (Hfb : printable env fallback = true) by (apply ascii_printable; reflexivity).
  destruct (chat_answer env s2 img k) as [resp|[cls msg| |]|] eqn:Hc.
  - destruct (response_text_cases resp) as [[d Hd]|(cls & msg & Hd)].
    + rewrite (describe_image_text env img k s2 resp d Hc Hd).
      rewrite Hd in Hp.
      match goal with |- context [record_entry ?e ?st] =>
        destruct (record_entry_logs e st) as (s4 & -> & _) end.
      rewrite print_ok by (rewrite frame_line_printable; exact Hp).
      left. reflexivity.
    + rewrite (describe_image_malformed env img k s2 resp cls msg Hc Hd).
      match goal with |- context [record_entry ?e ?st] =>
        destruct (record_entry_logs e st) as (s4 & -> & _) end.
      rewrite print_ok by (rewrite frame_line_printable; exact Hfb).
      left. reflexivity.
  - rewrite (describe_image_chat_raises env img k s2 cls msg Hc Hp).
    match goal with |- context [record_entry ?e ?st] =>
      destruct (record_entry_logs e st) as (s4 & -> & _) end.
    rewrite print_ok by (rewrite frame_line_printable; exact Hfb).
    left. reflexivity.
  - exfalso. exact (proj1 (Hchat _ _ _ _) Hc).
  - exfalso. exact (proj2 (Hchat _ _ _ _) Hc).
  - rewrite describe_image_passes by auto. rewrite Hc. right. reflexivity.
Qed.

Lemma while_true_continues (fuel : nat) (s : State) :
  (forall f, exists b, encode_image env f = Ok b) ->
  (forall t m p i, ollama_chat env t m p i <> Raise KeyboardInterrupt
                   /\ ollama_chat env t m p i <> Raise SystemExit) ->
  answers_printable env ->
  fst (while_true fuel (loop_body env) s) = Running.
Proof.
  intros Henc Hchat Hprint. revert s.
  induction fuel as [|fuel IH]; intros s; [reflexivity|].
  simpl. unfold bind.
  destruct (loop_body_continues s Henc Hchat Hprint) as [H|H];
    destruct (loop_body env s) as [[[]|e|] s1]; simpl in H; try discriminate.
  - apply IH.
  - reflexivity.
Qed.

End Loop.

(** ** [safe_read] *)

Section Reader.

Context {Frame Image : Type}.
Variable env : Env Frame Image.

(** The first read succeeded: the handle is kept and nothing else happens. *)
Lemma safe_read_direct (h : Handle) (url : pystr) (s : State) :
  fst (cap_read env (trace s) h) = true ->
  safe_read env h url s
  = (Ok (h, snd (cap_read env (trace s) h)), emit_event s (EvRead h true)).
Proof.
  intros H. unfold safe_read, bind, read, ret.
  destruct (cap_read env (trace s) h) as [r fr]. simpl in H. subst r. reflexivity.
Qed.

End Reader.

(** C5: reconnect.  When the read on the current handle fails,
    [safe_read] prints a message, releases the handle, sleeps one second,
    opens the source again and reads exactly once more on the new capture
    object; it returns the new handle with the frame of that second read,
    or with [None] when the second read fails too, and it returns in both
    cases (no exception).  A source that fails once and then succeeds so
    yields its frame after exactly one reopen. *)
Theorem safe_read_retries_once {Frame Image : Type} (env : Env Frame Image)
        (h : Handle) (url : pystr) (s : State) :
  fst (cap_read env (trace s) h) = false ->
  let h' := next_handle s in
  let second := cap_read env (trace s ++ reconnect_events h url h') h' in
  let events := reconnect_events h url h' ++ [EvRead h' (fst second)] in
  exists s',
    safe_read env h url s = (Ok (h', if fst second then snd second else None), s')
    /\ trace s' = trace s ++ events
    /\ events = [EvRead h false; EvPrint (py "Reconnecting camera..."); EvRelease h;
                 EvSleep 1; EvOpen url h'; EvRead h' (fst second)]
    /\ count_events is_open events = 1%nat
    /\ count_events is_read events = 2%nat
    /\ analysis_logs s' = analysis_logs s
    /\ (forall f, second = (true, Some f) ->
                  fst (safe_read env h url s) = Ok (h', Some f))
    /\ (fst second = false -> fst (safe_read env h url s) = Ok (h', None)).
Proof.
  intros H h' second events.
  assert (Hrun : safe_read env h url s
                 = (Ok (h', if fst second then snd second else None),
                    with_next_handle (with_trace s (trace s ++ events)) (S h'))).
  { unfold safe_read, bind, read, print, release, sleep, VideoCapture, ret.
    destruct (cap_read env (trace s) h) as [r fr] eqn:Hr. simpl in H. subst r.
    rewrite (ascii_printable env (py "Reconnecting camera...") eq_refl).
    cbn [negb fst snd trace emit_event with_trace with_next_handle next_handle].
    rewrite <- !app_assoc. cbn [app].
    fold (reconnect_events h url (next_handle s)). fold h'. fold second.
    destruct second as [[|] fr2]; cbn [negb fst snd];
      unfold emit_event, with_trace, with_next_handle; cbn [trace next_handle];
      subst events; rewrite <- !app_assoc; reflexivity. }
  eexists. split; [exact Hrun|].
  split; [reflexivity|]. split; [reflexivity|].
  split; [reflexivity|]. split; [reflexivity|]. split; [reflexivity|].
  split.
  - intros f Hf. rewrite Hrun. rewrite Hf. reflexivity.
  - intros Hf. rewrite Hrun. rewrite Hf. reflexivity.
Qed.

Lemma safe_read_retries_once_witness :
  fst (cap_read (scripted fails_once) (trace opened_state) 0%nat) = false
  /\ exists s',
       safe_read (scripted fails_once) 0%nat CAMERA_URL opened_state
       = (Ok (1%nat, Some 1%N), s')
       /\ count_events is_open
            (reconnect_events 0%nat CAMERA_URL 1%nat ++ [EvRead 1%nat true]) = 1%nat.
Proof.
  split; [reflexivity|].
  destruct (safe_read_retries_once (scripted fails_once) 0%nat CAMERA_URL opened_state
              eq_refl) as (s' & Hrun & _ & _ & Hopen & _).
  exists s'. split; [exact Hrun|exact Hopen].
Defined.

(** ** The describer *)




(** C10: shape of a description.  For every response the inference call
    returns, [describe_image] returns either the content of the response
    with the whitespace stripped at both ends, or "Everything looks
    normal."; what it returns is never empty and neither starts nor ends
    with whitespace, and content made of whitespace only gives the fallback
    exactly as empty content does. *)
Theorem describe_image_description {Frame Image : Type} (env : Env Frame Image)
        (img : pystr) (n : Z) (s : State) (resp : PyVal) :
  chat_answer env s img n = Ok resp ->
  exists d s',
    describe_image env img n s = (Ok d, s')
    /\ (d = py "Everything looks normal."
        \/ exists content, response_content resp = Ok (PyStr content) /\ d = strip content)
    /\ d <> []
    /\ (forall c r, d = c :: r -> isspace c = false)
    /\ (forall c r, rev d = c :: r -> isspace c = false)
    /\ (forall content,
          response_content resp = Ok (PyStr content) ->
          forallb isspace content = true ->
          d = py "Everything looks normal.").
Proof.
  intros H.
  destruct (response_text_cases resp) as [[d Hd]|(cls & msg & Hd)].
  - exists d. eexists. split; [apply (describe_image_text env img n s resp d H Hd)|].
    destruct (response_text_ok resp d Hd) as (content & Hc & ->).
    destruct (str_or_strip_shape content) as (Hne & Hhd & Hlast).
    split; [|split; [exact Hne|split; [exact Hhd|split; [exact Hlast|]]]].
    + destruct (strip content) eqn:Hs; simpl; [left; reflexivity|].
      right. exists content. split; [exact Hc|]. symmetry. exact Hs.
    + intros content' Hc' Hw.
      assert (content' = content) by congruence. subst content'.
      rewrite (strip_whitespace content Hw). reflexivity.
  - exists fallback. eexists.
    split; [apply (describe_image_malformed env img n s resp cls msg H Hd)|].
    destruct fallback_shape as (Hne & Hhd & Hlast).
    split; [left; reflexivity|].
    split; [exact Hne|split; [exact Hhd|split; [exact Hlast|]]].
    intros. reflexivity.
Qed.

Lemma describe_image_description_witness :
  chat_answer (scripted end_to_end) (with_trace initial_state [EvChat [] [] []]) [] 2
  = Ok (response_with (PyStr (py " B ")))
  /\ exists s',
       describe_image (scripted end_to_end) [] 2 (with_trace initial_state [EvChat [] [] []])
       = (Ok (py "B"), s').
Proof.
  split; [reflexivity|].
  destruct (describe_image_description (scripted end_to_end) [] 2
              (with_trace initial_state [EvChat [] [] []])
              (response_with (PyStr (py " B "))) eq_refl) as (d & s' & Hrun & _).
  exists s'. rewrite Hrun. vm_compute in Hrun. injection Hrun as <- _. reflexivity.
Defined.

(** ** Failures on the way to a description *)




(** ** Cycles without a frame *)

(** C7: a failed cycle.  When [safe_read] returns no frame, the iteration
    completes with the frame counter unchanged, the list unchanged, and no
    entry appended or removed. *)
Theorem failed_cycle_changes_nothing {Frame Image : Type} (env : Env Frame Image)
        (s : State) (c : Handle) :
  fst (safe_read env (cap s) CAMERA_URL s) = Ok (c, None) ->
  exists s',
    loop_body env s = (Ok tt, s')
    /\ frame_count s' = frame_count s
    /\ analysis_logs s' = analysis_logs s
    /\ appended (trace s') = appended (trace s)
    /\ evicted (trace s') = evicted (trace s).
Proof.
  intros H.
  pose proof (Quiet_safe_read env (cap s) CAMERA_URL s) as Hq.
  rewrite loop_body_run.
  destruct (safe_read env (cap s) CAMERA_URL s) as [o s1]. simpl in H, Hq. subst o.
  exists (with_cap s1 c). split; [reflexivity|].
  destruct (obs_split _ _ Hq) as [Hs Hc]. unfold store_obs in Hs.
  cbn [frame_count analysis_logs trace with_cap].
  repeat split; congruence.
Qed.

Lemma failed_cycle_changes_nothing_witness :
  fst (safe_read (scripted dark) (cap opened_state) CAMERA_URL opened_state)
  = Ok (1%nat, None)
  /\ exists s',
       loop_body (scripted dark) opened_state = (Ok tt, s')
       /\ frame_count s' = frame_count opened_state
       /\ analysis_logs s' = analysis_logs opened_state
       /\ appended (trace s') = appended (trace opened_state)
       /\ evicted (trace s') = evicted (trace opened_state).
Proof.
  split; [reflexivity|].
  apply (failed_cycle_changes_nothing (scripted dark) opened_state 1%nat).
  reflexivity.
Defined.

(** ** The frame counter *)

Section Counter.

Context {Frame Image : Type}.
Variable env : Env Frame Image.

(** Lines 76-91 leave the counter one higher, however they end. *)
Lemma process_frame_count (f : Frame) (s : State) :
  frame_count (snd (process_frame env f s)) = frame_count s + 1.
Proof.
  rewrite process_frame_run. cbv zeta.
  destruct (encode_image env f) as [img|e|]; try reflexivity.
  match goal with |- context [describe_image env img ?n ?st] =>
    pose proof (proj2 (obs_split _ _ (Quiet_describe_image env img n st))) as Hq;
    destruct (describe_image env img n st) as [[d|e|] s3] end;
    cbn [snd frame_count emit_event with_frame_count with_trace] in Hq; try exact Hq.
  match goal with |- context [record_entry ?e ?st] =>
    destruct (record_entry_logs e st) as (s4 & -> & _ & Hfc & _) end.
  match goal with |- context [print env ?line s4] =>
    destruct (print_cases env line s4) as [-> | ->] end;
    cbn [snd frame_count emit_event with_trace]; rewrite Hfc; exact Hq.
Qed.

(** An iteration increments the counter exactly when it obtained a frame. *)
Lemma loop_body_count (s : State) :
  match fst (safe_read env (cap s) CAMERA_URL s) with
  | Ok (_, Some _) => frame_count (snd (loop_body env s)) = frame_count s + 1
  | _ => frame_count (snd (loop_body env s)) = frame_count s
  end.
Proof.
  rewrite loop_body_run.
  pose proof (proj2 (obs_split _ _ (Quiet_safe_read env (cap s) CAMERA_URL s))) as Hq.
  destruct (safe_read env (cap s) CAMERA_URL s) as [[[c [f|]]|e|] s1];
    cbn [fst snd] in *; try exact Hq.
  rewrite process_frame_count. cbn [frame_count with_cap]. rewrite Hq. reflexivity.
Qed.

End Counter.

(** C6: frame numbers.  In a run of the program the entries appended to
    the list carry, in the order of their appends, the numbers 1, 2, 3, ...
    with no gap: the first is numbered 1 and an entry appended earlier has a
    smaller number than one appended later.  An iteration increments the
    counter by one exactly when [safe_read] gave it a frame, and leaves it
    alone otherwise. *)
Theorem frame_numbers_consecutive {Frame Image : Type} (env : Env Frame Image)
        (fuel : nat) :
  let s' := snd (surveillance_loop env fuel initial_state) in
  let numbers := map frame_number (appended (trace s')) in
  numbers = Zseq 1 (length numbers)
  /\ (forall i, (i < length numbers)%nat -> nth i numbers 0 = 1 + Z.of_nat i)
  /\ (forall i j, (i < j)%nat -> (j < length numbers)%nat ->
                  nth i numbers 0 < nth j numbers 0)
  /\ (forall s,
        match fst (safe_read env (cap s) CAMERA_URL s) with
        | Ok (_, Some _) => frame_count (snd (loop_body env s)) = frame_count s + 1
        | _ => frame_count (snd (loop_body env s)) = frame_count s
        end).
Proof.
  intros s' numbers.
  assert (Hn : numbers = Zseq 1 (length numbers)).
  { unfold numbers. rewrite length_map.
    exact (inv_numbers _ (surveillance_loop_inv env fuel)). }
  split; [exact Hn|].
  remember (length numbers) as k eqn:Hk. clear Hk.
  split; [|split].
  - intros i Hi. rewrite Hn. apply Zseq_nth. exact Hi.
  - intros i j Hij Hj. rewrite Hn, !Zseq_nth by lia. lia.
  - apply loop_body_count.
Qed.

Lemma frame_numbers_consecutive_witness :
  map frame_number
      (appended (trace (snd (surveillance_loop (scripted end_to_end) 5 initial_state))))
  = [1; 2; 3; 4]
  /\ nth 0 (map frame_number
              (appended (trace (snd (surveillance_loop (scripted end_to_end) 5
                                       initial_state))))) 0
     < nth 3 (map frame_number
                (appended (trace (snd (surveillance_loop (scripted end_to_end) 5
                                         initial_state))))) 0.
Proof.
  split; [reflexivity|].
  apply (proj1 (proj2 (proj2 (frame_numbers_consecutive (scripted end_to_end) 5))));
    vm_compute; lia.
Defined.

(** ** Startup failure and what else ends the loop *)

(** C8, as stated, fails: the camera opens and delivers a frame, the
    encoder raises on it, and the loop is over: [surveillance_loop] has
    released the camera and raised, with ten iterations allowed but one
    read done. *)
Lemma encoder_failure_halts_loop :
  camera_opened (scripted broken_encoder) initial_state = true
  /\ fst (surveillance_loop (scripted broken_encoder) 10 initial_state) <> Running
  /\ fst (surveillance_loop (scripted broken_encoder) 10 initial_state)
     = Raise (Exc (py "cv2.error") (py "cvtColor failed"))
  /\ count_events is_read
       (trace (snd (surveillance_loop (scripted broken_encoder) 10 initial_state))) = 1%nat
  /\ last (trace (snd (surveillance_loop (scripted broken_encoder) 10 initial_state)))
          (EvSleep 0)
     = EvRelease 0%nat.
Proof. vm_compute. repeat split. discriminate. Qed.

(** A description [sys.stdout] cannot encode ends the loop as well: the
    inference call returns text that ends in a lone surrogate, the entry is
    stored, the [print] of line 91 raises [UnicodeEncodeError] on a UTF-8
    stdout, the camera is released and [surveillance_loop] raises. *)
Lemma unprintable_description_ends_loop :
  fst (surveillance_loop (scripted_with_stdout utf8_stdout lone_surrogate) 10 initial_state)
  = Raise (Exc (py "UnicodeEncodeError") (py "codec can't encode character"))
  /\ analysis_logs
       (snd (surveillance_loop (scripted_with_stdout utf8_stdout lone_surrogate) 10
               initial_state))
     = [mkLogEntry 1 (py "2025-01-01 00:00:00") (py "ok " ++ [55357%N])]
  /\ count_events is_read
       (trace (snd (surveillance_loop (scripted_with_stdout utf8_stdout lone_surrogate) 10
                      initial_state))) = 1%nat.
Proof. vm_compute. repeat split. Qed.

(** With a [sys.stdout] that encodes every character, every line can be
    written. *)
Lemma scripted_printable (sc : Script) (text : pystr) :
  printable (scripted sc) text = true.
Proof.
  unfold printable. apply forallb_forall. intros c _.
  unfold encodable. apply orb_true_r.
Qed.

Lemma scripted_answers_printable (sc : Script) : answers_printable (scripted sc).
Proof.
  intros t m p i.
  destruct (ollama_chat (scripted sc) t m p i) as [resp|[cls msg| |]|]; trivial.
  - destruct (response_text resp); trivial. apply scripted_printable.
  - apply scripted_printable.
Qed.

(** C8, amended.  When the camera cannot be opened at startup,
    [surveillance_loop] prints the error and returns, with no read made and
    the list untouched.  When it has been opened, failed reads and failures
    of the inference call do not end the loop: as long as the encoder
    returns, neither [KeyboardInterrupt] nor [SystemExit] is raised, and
    [sys.stdout] can encode the error messages and the descriptions the
    inference service makes the program print (lines 44 and 91), the loop
    is still running after any number of iterations. *)
Theorem startup_failure_halts {Frame Image : Type} (env : Env Frame Image)
        (fuel : nat) (s : State) :
  (camera_opened env s = false ->
   exists s',
     surveillance_loop env fuel s = (Ok tt, s')
     /\ trace s' = trace s ++ [EvPrint started_message;
                               EvOpen CAMERA_URL (next_handle s);
                               EvIsOpened (next_handle s) false;
                               EvPrint (py "Error: Cannot open camera stream.")]
     /\ count_events is_read (trace s') = count_events is_read (trace s)
     /\ appended (trace s') = appended (trace s)
     /\ analysis_logs s' = analysis_logs s)
  /\ (camera_opened env s = true ->
      (forall f, exists b, encode_image env f = Ok b) ->
      (forall t m p i, ollama_chat env t m p i <> Raise KeyboardInterrupt
                       /\ ollama_chat env t m p i <> Raise SystemExit) ->
      answers_printable env ->
      fst (surveillance_loop env fuel s) = Running).
Proof.
  split.
  - intros H. eexists. split; [apply (surveillance_loop_unavailable env fuel s H)|].
    unfold after_startup, at_open. rewrite H.
    cbn [trace analysis_logs emit_event with_trace with_next_handle with_cap].
    rewrite <- !app_assoc. cbn [app].
    split; [reflexivity|]. split; [|split; [|reflexivity]].
    + unfold count_events. rewrite filter_app, length_app. simpl. lia.
    + rewrite appended_app. simpl. apply app_nil_r.
  - intros H Henc Hchat Hprint. rewrite (surveillance_loop_opened env fuel s H).
    apply guarded_store. apply while_true_continues; assumption.
Qed.

Lemma startup_failure_halts_witness :
  (camera_opened (scripted unavailable) initial_state = false
   /\ exists s',
        surveillance_loop (scripted unavailable) 7 initial_state = (Ok tt, s')
        /\ count_events is_read (trace s') = 0%nat
        /\ analysis_logs s' = [])
  /\ (camera_opened (scripted end_to_end) initial_state = true
      /\ answers_printable (scripted end_to_end)
      /\ fst (surveillance_loop (scripted end_to_end) 7 initial_state) = Running).
Proof.
  split; (split; [reflexivity|]).
  - destruct (proj1 (startup_failure_halts (scripted unavailable) 7 initial_state) eq_refl)
      as (s' & Hrun & _ & Hreads & _ & Hlogs).
    exists s'. split; [exact Hrun|]. split; [exact Hreads|exact Hlogs].
  - split; [apply scripted_answers_printable|].
    apply (proj2 (startup_failure_halts (scripted end_to_end) 7 initial_state) eq_refl).
    + intros f. eexists. reflexivity.
    + intros t m p i.
      unfold scripted, scripted_with_stdout, ollama_chat, end_to_end, script_chats.
      destruct (count_events is_chat t) as [|[|[|[|[|k]]]]]; simpl; split; discriminate.
    + apply scripted_answers_printable.
Defined.

(** ** The bound on the store *)

(** C2, as stated, fails: with a camera that delivers 101 frames, the list
    holds 101 entries between line 87 and line 89 of the 101st iteration,
    so its length does exceed 100 at that time (it is 100 again once line
    89 has run). *)
Lemma store_holds_101_during_append :
  In 101 (lengths_from 0
            (trace (snd (surveillance_loop (scripted (steady 101)) 101 initial_state))))
  /\ ~ Forall (fun n => n <= 100)
         (lengths_from 0
            (trace (snd (surveillance_loop (scripted (steady 101)) 101 initial_state))))
  /\ length (analysis_logs
               (snd (surveillance_loop (scripted (steady 101)) 101 initial_state)))
     = 100%nat.
Proof.
  assert (H : In 101 (lengths_from 0
            (trace (snd (surveillance_loop (scripted (steady 101)) 101 initial_state))))).
  { assert (E : existsb (Z.eqb 101)
                  (lengths_from 0
                     (trace (snd (surveillance_loop (scripted (steady 101)) 101
                                    initial_state)))) = true)
      by (vm_compute; reflexivity).
    apply existsb_exists in E. destruct E as (x & Hin & Hx).
    apply Z.eqb_eq in Hx. subst x. exact Hin. }
  split; [exact H|]. split.
  - intros HF. rewrite Forall_forall in HF. specialize (HF 101 H). lia.
  - vm_compute. reflexivity.
Qed.

(** C2, amended.  In a run of the program the list never holds more than
    100 entries once an append (lines 87-89) is over, and never more than
    101 in between; every entry ever appended is either still in the list
    or was removed by the pop of line 89, the removed ones being the oldest;
    an append to a list of 100 removes exactly its head, an append to a
    shorter list removes nothing, and the [/logs] handler changes nothing. *)
Theorem store_bounded_after_each_append {Frame Image : Type} (env : Env Frame Image)
        (fuel : nat) :
  let s' := snd (surveillance_loop env fuel initial_state) in
  (length (analysis_logs s') <= 100)%nat
  /\ Forall (fun n => n <= 101) (lengths_from 0 (trace s'))
  /\ appended (trace s') = evicted (trace s') ++ analysis_logs s'
  /\ (forall e x rest s,
        analysis_logs s = x :: rest ->
        length (analysis_logs s) = 100%nat ->
        exists s1,
          record_entry e s = (Ok tt, s1)
          /\ analysis_logs s1 = rest ++ [e]
          /\ trace s1 = trace s ++ [EvAppend e; EvPop x])
  /\ (forall e s,
        (length (analysis_logs s) < 100)%nat ->
        exists s1,
          record_entry e s = (Ok tt, s1)
          /\ analysis_logs s1 = analysis_logs s ++ [e]
          /\ trace s1 = trace s ++ [EvAppend e])
  /\ (forall s, get_logs s = (Ok (analysis_logs s), s)).
Proof.
  intros s'.
  destruct (surveillance_loop_inv env fuel) as [H1 H2 H3 H4 _]. fold s' in H1, H2, H3, H4.
  split; [exact H2|]. split; [exact H3|]. split; [exact H1|].
  split; [|split].
  - intros e x rest s Hl Hlen.
    eexists. split.
    + apply (record_entry_full e x rest s Hl). unfold capacity. lia.
    + cbn [analysis_logs trace emit_event with_logs with_trace].
      rewrite <- app_assoc. split; reflexivity.
  - intros e s Hlen.
    eexists. split; [apply (record_entry_below e s Hlen)|].
    split; reflexivity.
  - intros s. reflexivity.
Qed.

Lemma store_bounded_after_each_append_witness :
  (length (analysis_logs
             (snd (surveillance_loop (scripted (steady 101)) 101 initial_state))) <= 100)%nat
  /\ exists s1,
       record_entry (numbered 4) (with_logs initial_state [numbered 1; numbered 2]) = (Ok tt, s1)
       /\ analysis_logs s1 = [numbered 1; numbered 2; numbered 4]
       /\ trace s1 = [EvAppend (numbered 4)].
Proof.
  split.
  - apply (proj1 (store_bounded_after_each_append (scripted (steady 101)) 101)).
  - apply (proj1 (proj2 (proj2 (proj2 (proj2
             (store_bounded_after_each_append (scripted (steady 101)) 101)))))
             (numbered 4) (with_logs initial_state [numbered 1; numbered 2])).
    simpl. lia.
Defined.

(** ** The bounded buffer *)

(** A run of appends from a store within its bound. *)
Lemma record_entries_most_recent (es : list LogEntry) (s : State) :
  (length (analysis_logs s) <= capacity)%nat ->
  exists s',
    record_entries es s = (Ok tt, s')
    /\ (length (analysis_logs s') <= capacity)%nat
    /\ analysis_logs s' = most_recent capacity (analysis_logs s ++ es).
Proof.
  revert s. induction es as [|e es IH]; intros s Hs.
  - exists s. rewrite app_nil_r, most_recent_all by exact Hs. repeat split. exact Hs.
  - destruct (record_entry_logs e s) as (s1 & Hrun & Hlogs & _).
    assert (Hs1 : (length (analysis_logs s1) <= capacity)%nat)
      by (rewrite Hlogs; apply log_append_length; exact Hs).
    destruct (IH s1 Hs1) as (s' & Hrun' & Hlen' & Hrec').
    exists s'. split; [|split].
    + simpl. unfold bind. rewrite Hrun. exact Hrun'.
    + exact Hlen'.
    + rewrite Hrec', Hlogs. apply log_append_most_recent. exact Hs.
Qed.

(** In a run of the program the list is the most recent part of what was
    appended. *)
Lemma StoreInv_most_recent (s : State) :
  StoreInv s -> analysis_logs s = most_recent capacity (appended (trace s)).
Proof.
  intros [H1 H2 _ _ H5]. rewrite H1. destruct H5 as [H5|H5].
  - rewrite H5. simpl. symmetry. apply most_recent_all. exact H2.
  - rewrite most_recent_app by lia. symmetry. apply most_recent_all. exact H2.
Qed.

(** C1: bounded buffer.  Whatever the store holds (at most 100 entries, as
    it always does), after any sequence of more than 100 appends (lines
    87-89 run once per entry) the store holds exactly 100 entries: the 100
    most recently appended ones, oldest first.  So it is in every run of
    the program: the list is the most recent 100 of the entries appended
    since the start, in the order of their appends, and it holds exactly 100
    once more than 100 have been appended. *)
Theorem bounded_buffer_keeps_most_recent {Frame Image : Type} (env : Env Frame Image) :
  (forall es s,
     (length (analysis_logs s) <= capacity)%nat ->
     (capacity < length es)%nat ->
     exists s',
       record_entries es s = (Ok tt, s')
       /\ length (analysis_logs s') = 100%nat
       /\ analysis_logs s' = most_recent 100 es
       /\ analysis_logs s' = skipn (length es - 100) es)
  /\ (forall fuel,
        let s' := snd (surveillance_loop env fuel initial_state) in
        analysis_logs s' = most_recent 100 (appended (trace s'))
        /\ ((100 < length (appended (trace s')))%nat ->
            length (analysis_logs s') = 100%nat)).
Proof.
  split.
  - intros es s Hs Hes.
    destruct (record_entries_most_recent es s Hs) as (s' & Hrun & Hlen & Hrec).
    rewrite most_recent_app in Hrec by lia.
    exists s'. split; [exact Hrun|]. split; [|split].
    + rewrite Hrec, most_recent_length. unfold capacity in *. lia.
    + exact Hrec.
    + rewrite Hrec. reflexivity.
  - intros fuel s'.
    pose proof (StoreInv_most_recent s' (surveillance_loop_inv env fuel)) as H.
    split; [exact H|].
    intros Hlen. rewrite H, most_recent_length. unfold capacity. lia.
Qed.

Lemma bounded_buffer_witness :
  (exists s',
     record_entries hundred_and_one initial_state = (Ok tt, s')
     /\ length (analysis_logs s') = 100%nat
     /\ analysis_logs s' = most_recent 100 hundred_and_one
     /\ analysis_logs s' = skipn (length hundred_and_one - 100) hundred_and_one)
  /\ length (analysis_logs
               (snd (surveillance_loop (scripted (steady 101)) 101 initial_state)))
     = 100%nat.
Proof.
  split.
  - apply (proj1 (bounded_buffer_keeps_most_recent (scripted dark))
             hundred_and_one initial_state); vm_compute; lia.
  - apply (proj2 (bounded_buffer_keeps_most_recent (scripted (steady 101))) 101%nat).
    vm_compute. lia.
Defined.

(** ** The scenario of the design document

    Three frames described "A", " B " and "C", a cycle in which both reads
    fail, then a frame for which the inference call raises. *)
Example end_to_end_scenario :
  map (fun e => (frame_number e, description e))
      (analysis_logs (snd (surveillance_loop (scripted end_to_end) 5 initial_state)))
  = [(1, py "A"); (2, py "B"); (3, py "C"); (4, py "Everything looks normal.")]
  /\ frame_count (snd (surveillance_loop (scripted end_to_end) 4 initial_state)) = 3
  /\ fst (surveillance_loop (scripted end_to_end) 5 initial_state) = Running.
Proof. vm_compute. repeat split. Qed.

(** * Further properties of the program *)

(** ** Computations that keep an observation *)

Section KeepsRules.

Context {X : Type} (O : State -> X) (p : Event -> bool).
Context {Frame Image : Type} (env : Env Frame Image).

Hypothesis O_emit : forall s ev, p ev = false -> O (emit_event s ev) = O s.

Lemma Keeps_ret {A : Type} (a : A) : Keeps O (ret a).
Proof. intros s. reflexivity. Qed.

Lemma Keeps_lift {A : Type} (o : Outcome A) : Keeps O (lift o).
Proof. intros s. reflexivity. Qed.

Lemma Keeps_bind {A B : Type} (m : M A) (k : A -> M B) :
  Keeps O m -> (forall a, Keeps O (k a)) -> Keeps O (bind m k).
Proof.
  intros Hm Hk s. unfold bind. specialize (Hm s).
  destruct (m s) as [[a|e|] s']; simpl in *; [|exact Hm|exact Hm].
  rewrite Hk. exact Hm.
Qed.

Lemma Keeps_try_except_Exception {A : Type} (body : M A) (handler : Exn -> M A) :
  Keeps O body -> (forall e, Keeps O (handler e)) ->
  Keeps O (try_except_Exception body handler).
Proof.
  intros Hb Hh s. unfold try_except_Exception. specialize (Hb s).
  destruct (body s) as [[a|[cls msg| |]|] s']; simpl in *; try exact Hb.
  rewrite Hh. exact Hb.
Qed.

Lemma Keeps_get_cap : Keeps O get_cap.
Proof. intros s. reflexivity. Qed.

Lemma Keeps_get_frame_count : Keeps O get_frame_count.
Proof. intros s. reflexivity. Qed.

Lemma Keeps_logs_len : Keeps O logs_len.
Proof. intros s. reflexivity. Qed.

Lemma Keeps_print (msg : pystr) : p (EvPrint msg) = false -> Keeps O (print env msg).
Proof.
  intros H s. unfold print.
  destruct (printable env msg); [apply O_emit; exact H|reflexivity].
Qed.

Lemma Keeps_release (h : Handle) : p (EvRelease h) = false -> Keeps O (release h).
Proof. intros H s. apply O_emit. exact H. Qed.

Lemma Keeps_sleep (secs : Z) : p (EvSleep secs) = false -> Keeps O (sleep secs).
Proof. intros H s. apply O_emit. exact H. Qed.

Lemma Keeps_read (h : Handle) : (forall b, p (EvRead h b) = false) -> Keeps O (read env h).
Proof. intros H s. apply O_emit. apply H. Qed.

Lemma Keeps_now : (forall ts, p (EvNow ts) = false) -> Keeps O (now env).
Proof. intros H s. apply O_emit. apply H. Qed.

Lemma Keeps_chat (model prompt image : pystr) :
  p (EvChat model prompt image) = false -> Keeps O (chat env model prompt image).
Proof. intros H s. apply O_emit. exact H. Qed.

Lemma Keeps_VideoCapture (url : pystr) :
  (forall s h, O (with_next_handle s h) = O s) ->
  (forall h, p (EvOpen url h) = false) ->
  Keeps O (VideoCapture url).
Proof.
  intros Hn H s. unfold VideoCapture. cbn [snd]. rewrite Hn. apply O_emit. apply H.
Qed.

Lemma Keeps_set_frame_count (n : Z) :
  (forall s k, O (with_frame_count s k) = O s) -> Keeps O (set_frame_count n).
Proof. intros H s. apply H. Qed.

Lemma Keeps_logs_append (e : LogEntry) :
  (forall s l, O (with_logs s l) = O s) -> p (EvAppend e) = false ->
  Keeps O (logs_append e).
Proof.
  intros Hl H s. unfold logs_append. cbn [snd]. rewrite O_emit by exact H. apply Hl.
Qed.

Lemma Keeps_logs_pop0 :
  (forall s l, O (with_logs s l) = O s) -> (forall e, p (EvPop e) = false) ->
  Keeps O logs_pop0.
Proof.
  intros Hl H s. unfold logs_pop0.
  destruct (analysis_logs s) as [|e rest]; cbn [snd]; [reflexivity|].
  rewrite O_emit by apply H. apply Hl.
Qed.

End KeepsRules.

(** Splits a computation into its calls and closes each with the rules
    above; [emit] is the fact that the observation ignores the events the
    computation makes. *)
Ltac keeps emit :=
  repeat match goal with
         | |- Keeps _ (bind _ _) => apply Keeps_bind; [|intros ?]
         | |- Keeps _ (try_except_Exception _ _) =>
             apply Keeps_try_except_Exception; [|intros ?]
         | |- Keeps _ (match ?x with _ => _ end) => destruct x
         | |- Keeps _ _ =>
             first [ solve [auto 2]
                   | apply Keeps_ret | apply Keeps_lift | apply Keeps_get_cap
                   | apply Keeps_get_frame_count | apply Keeps_logs_len
                   | eapply Keeps_print; [exact emit|]
                   | eapply Keeps_release; [exact emit|]
                   | eapply Keeps_sleep; [exact emit|]
                   | eapply Keeps_read; [exact emit|]
                   | eapply Keeps_now; [exact emit|]
                   | eapply Keeps_chat; [exact emit|]
                   | eapply Keeps_VideoCapture; [exact emit| |]
                   | eapply Keeps_set_frame_count
                   | eapply Keeps_logs_append; [exact emit| |]
                   | eapply Keeps_logs_pop0; [exact emit| |] ];
             intros; reflexivity
         end.

(** ** Capture objects *)

Lemma opened_handles_app (a b : list Event) :
  opened_handles (a ++ b) = opened_handles a ++ opened_handles b.
Proof.
  induction a as [|ev a IH]; [reflexivity|].
  destruct ev; simpl; rewrite IH; reflexivity.
Qed.

Lemma released_handles_app (a b : list Event) :
  released_handles (a ++ b) = released_handles a ++ released_handles b.
Proof.
  induction a as [|ev a IH]; [reflexivity|].
  destruct ev; simpl; rewrite IH; reflexivity.
Qed.

Lemma handle_obs_emit (s : State) (ev : Event) :
  is_handle_event ev = false -> handle_obs (emit_event s ev) = handle_obs s.
Proof.
  intros H. unfold handle_obs, emit_event.
  cbn [trace next_handle cap with_trace].
  rewrite opened_handles_app, released_handles_app.
  destruct ev; try discriminate; simpl; rewrite !app_nil_r; reflexivity.
Qed.

Section Handles.

Context {Frame Image : Type}.
Variable env : Env Frame Image.

Lemma Keeps_handles_describe_image (img : pystr) (n : Z) :
  Keeps handle_obs (describe_image env img n).
Proof. unfold describe_image. keeps handle_obs_emit. Qed.

Lemma Keeps_handles_record_entry (e : LogEntry) : Keeps handle_obs (record_entry e).
Proof. unfold record_entry. keeps handle_obs_emit. Qed.

(** Lines 76-91 neither open nor release a capture object. *)
Lemma Keeps_handles_process_frame (f : Frame) : Keeps handle_obs (process_frame env f).
Proof.
  unfold process_frame.
  pose proof Keeps_handles_describe_image. pose proof Keeps_handles_record_entry.
  keeps handle_obs_emit.
Qed.

End Handles.

Section CaptureObjects.

Context {Frame Image : Type}.
Variable env : Env Frame Image.

(** Lines 47-57 unfolded, both paths. *)
Lemma safe_read_run (h : Handle) (url : pystr) (s : State) :
  safe_read env h url s
  = if fst (cap_read env (trace s) h)
    then (Ok (h, snd (cap_read env (trace s) h)), emit_event s (EvRead h true))
    else
      let h' := next_handle s in
      let second := cap_read env (trace s ++ reconnect_events h url h') h' in
      (Ok (h', if fst second then snd second else None),
       with_next_handle
         (with_trace s (trace s ++ reconnect_events h url h' ++ [EvRead h' (fst second)]))
         (S h')).
Proof.
  unfold safe_read, bind, read, print, release, sleep, VideoCapture, ret.
  destruct (cap_read env (trace s) h) as [[|] fr] eqn:Hr; [reflexivity|].
  rewrite (ascii_printable env (py "Reconnecting camera...") eq_refl).
  cbn [negb fst snd trace emit_event with_trace with_next_handle next_handle].
  rewrite <- !app_assoc. cbn [app].
  fold (reconnect_events h url (next_handle s)).
  destruct (cap_read env (trace s ++ reconnect_events h url (next_handle s)) (next_handle s))
    as [[|] fr2]; cbn [negb fst snd];
    unfold emit_event, with_trace, with_next_handle; cbn [trace next_handle];
    rewrite <- !app_assoc; reflexivity.
Qed.

(** What holds of the capture objects while the loop runs: the one in
    [cap] is the only one opened and not released, and the objects were
    numbered as they were created. *)
Lemma loop_body_handles (s : State) :
  opened_handles (trace s) = released_handles (trace s) ++ [cap s] ->
  opened_handles (trace s) = seq 0 (next_handle s) ->
  opened_handles (trace (snd (loop_body env s)))
  = released_handles (trace (snd (loop_body env s))) ++ [cap (snd (loop_body env s))]
  /\ opened_handles (trace (snd (loop_body env s)))
     = seq 0 (next_handle (snd (loop_body env s))).
Proof.
  intros H1 H2. rewrite loop_body_run, safe_read_run.
  assert (Hkeep : forall f c s1,
             opened_handles (trace s1) = released_handles (trace s1) ++ [c] ->
             opened_handles (trace s1) = seq 0 (next_handle s1) ->
             let s' := snd (process_frame env f (with_cap s1 c)) in
             opened_handles (trace s') = released_handles (trace s') ++ [cap s']
             /\ opened_handles (trace s') = seq 0 (next_handle s')).
  { intros f c s1 Ha Hb s'.
    pose proof (Keeps_handles_process_frame env f (with_cap s1 c)) as Hk.
    fold s' in Hk. unfold handle_obs in Hk. cbn [trace next_handle cap with_cap] in Hk.
    injection Hk as -> -> -> ->. split; assumption. }
  destruct (cap_read env (trace s) (cap s)) as [[|] fr]; cbn [fst snd].
  - assert (Ha : opened_handles (trace (emit_event s (EvRead (cap s) true)))
                 = released_handles (trace (emit_event s (EvRead (cap s) true))) ++ [cap s]).
    { cbn [trace emit_event with_trace].
      rewrite opened_handles_app, released_handles_app. simpl. rewrite !app_nil_r. exact H1. }
    assert (Hb : opened_handles (trace (emit_event s (EvRead (cap s) true)))
                 = seq 0 (next_handle (emit_event s (EvRead (cap s) true)))).
    { cbn [trace next_handle emit_event with_trace].
      rewrite opened_handles_app. simpl. rewrite app_nil_r. exact H2. }
    destruct fr as [f|]; [exact (Hkeep f _ _ Ha Hb)|].
    cbn [snd trace next_handle cap with_cap]. split; assumption.
  - cbv zeta.
    set (second := cap_read env _ (next_handle s)).
    set (s1 := with_next_handle _ _).
    assert (Ha : opened_handles (trace s1) = released_handles (trace s1) ++ [next_handle s]).
    { unfold s1. cbn [trace with_next_handle with_trace].
      rewrite opened_handles_app, released_handles_app.
      unfold reconnect_events. cbn [opened_handles released_handles app].
      rewrite H1, <- app_assoc. reflexivity. }
    assert (Hb : opened_handles (trace s1) = seq 0 (next_handle s1)).
    { unfold s1. cbn [trace next_handle with_next_handle with_trace].
      rewrite opened_handles_app. unfold reconnect_events.
      cbn [opened_handles app]. rewrite H2, seq_S. reflexivity. }
    destruct (if fst second then snd second else None) as [f|];
      [exact (Hkeep f _ _ Ha Hb)|].
    cbn [snd trace next_handle cap with_cap]. split; assumption.
Qed.

Lemma while_true_handles (fuel : nat) (s : State) :
  opened_handles (trace s) = released_handles (trace s) ++ [cap s] ->
  opened_handles (trace s) = seq 0 (next_handle s) ->
  opened_handles (trace (snd (while_true fuel (loop_body env) s)))
  = released_handles (trace (snd (while_true fuel (loop_body env) s)))
    ++ [cap (snd (while_true fuel (loop_body env) s))]
  /\ opened_handles (trace (snd (while_true fuel (loop_body env) s)))
     = seq 0 (next_handle (snd (while_true fuel (loop_body env) s))).
Proof.
  revert s. induction fuel as [|fuel IH]; intros s H1 H2; [split; assumption|].
  simpl. unfold bind.
  destruct (loop_body_handles s H1 H2) as [Ha Hb].
  destruct (loop_body env s) as [[[]|e|] s1]; cbn [snd] in *;
    [apply IH; assumption|split; assumption|split; assumption].
Qed.

(** The handlers of lines 93-96 release the current capture object when the
    loop has ended, and do nothing to a loop that is still running. *)
Lemma guarded_handles (body : M unit) (s : State) :
  (fst (body s) = Running ->
   guarded env body s = (Running, snd (body s)))
  /\ (fst (body s) <> Running ->
      fst (guarded env body s) <> Running
      /\ opened_handles (trace (snd (guarded env body s)))
         = opened_handles (trace (snd (body s)))
      /\ released_handles (trace (snd (guarded env body s)))
         = released_handles (trace (snd (body s))) ++ [cap (snd (body s))]
      /\ next_handle (snd (guarded env body s)) = next_handle (snd (body s))).
Proof.
  unfold guarded, try_finally, try_except_KeyboardInterrupt, bind, get_cap, release.
  destruct (body s) as [[[]|[cls msg| |]|] s']; rewrite ?print_ascii by reflexivity;
    cbn [fst snd];
    (split; [try discriminate; try reflexivity|]); intros H;
    try (exfalso; apply H; reflexivity);
    (split; [discriminate|]);
    cbn [trace next_handle cap emit_event with_trace];
    rewrite ?opened_handles_app, ?released_handles_app; simpl;
    rewrite ?app_nil_r, <- ?app_assoc; repeat split; reflexivity.
Qed.

End CaptureObjects.

(** X1: whatever the camera does, [safe_read] returns.  Either its one read
    succeeded and it did nothing else and returns the handle it was given;
    or it released that handle, slept, created one new capture object, read
    once on it, and returns the new handle.  It never reads more than twice,
    never returns the handle it released (given a handle that exists
    already), and a frame it returns comes from a successful last read on
    the handle returned. *)
Theorem safe_read_effects {Frame Image : Type} (env : Env Frame Image)
        (h : Handle) (url : pystr) (s : State) :
  exists c fr s' evs,
    safe_read env h url s = (Ok (c, fr), s')
    /\ trace s' = trace s ++ evs
    /\ analysis_logs s' = analysis_logs s
    /\ frame_count s' = frame_count s
    /\ ((c = h /\ evs = [EvRead h true] /\ next_handle s' = next_handle s)
        \/ (c = next_handle s /\ next_handle s' = S (next_handle s)
            /\ exists ret2,
                 evs = [EvRead h false; EvPrint (py "Reconnecting camera...");
                        EvRelease h; EvSleep 1; EvOpen url c; EvRead c ret2]
                 /\ (ret2 = false -> fr = None)))
    /\ (1 <= count_events is_read evs <= 2)%nat
    /\ (length (opened_handles evs) <= 1)%nat
    /\ released_handles evs = match opened_handles evs with [] => [] | _ :: _ => [h] end
    /\ ((h < next_handle s)%nat -> ~ In c (released_handles evs))
    /\ (forall f, fr = Some f -> last evs (EvSleep 0) = EvRead c true).
Proof.
  rewrite safe_read_run.
  destruct (cap_read env (trace s) h) as [[|] fr1]; cbn [fst snd].
  - exists h, fr1, (emit_event s (EvRead h true)), [EvRead h true].
    split; [reflexivity|]. split; [reflexivity|]. split; [reflexivity|].
    split; [reflexivity|]. split; [left; repeat split|].
    split; [unfold count_events; simpl; lia|]. split; [simpl; lia|]. split; [reflexivity|].
    split; [intros _ []|]. intros; reflexivity.
  - cbv zeta.
    set (second := cap_read env _ (next_handle s)).
    eexists (next_handle s), _, _, _.
    split; [reflexivity|]. split; [reflexivity|]. split; [reflexivity|].
    split; [reflexivity|]. split.
    { right. split; [reflexivity|]. split; [reflexivity|].
      exists (fst second). split; [reflexivity|]. intros ->. reflexivity. }
    split; [unfold count_events; simpl; lia|]. split; [simpl; lia|]. split; [reflexivity|].
    split.
    + intros Hlt [Hin|[]]. lia.
    + intros f Hf. simpl. destruct (fst second); [reflexivity|discriminate].
Qed.

(** X2: capture objects are released exactly once.  In a run of the
    program the objects created are numbered 0, 1, 2, ... in order.  While
    the loop runs, every one of them has been released except the current
    one ([cap]); once the loop has ended, by an exception or by an
    interrupt, all have been released, each once and in the order of their
    creation.  When the camera could not be opened at startup, the one
    object created is never released. *)
Theorem handles_released_once {Frame Image : Type} (env : Env Frame Image) (fuel : nat) :
  let r := surveillance_loop env fuel initial_state in
  opened_handles (trace (snd r)) = seq 0 (next_handle (snd r))
  /\ (camera_opened env initial_state = false ->
      opened_handles (trace (snd r)) = [0%nat] /\ released_handles (trace (snd r)) = [])
  /\ (camera_opened env initial_state = true -> fst r = Running ->
      opened_handles (trace (snd r)) = released_handles (trace (snd r)) ++ [cap (snd r)])
  /\ (camera_opened env initial_state = true -> fst r <> Running ->
      released_handles (trace (snd r)) = opened_handles (trace (snd r))).
Proof.
  intros r. unfold r.
  destruct (camera_opened env initial_state) eqn:Ho.
  - rewrite (surveillance_loop_opened env fuel _ Ho).
    set (s0 := with_frame_count (after_startup env initial_state) 0).
    assert (H1 : opened_handles (trace s0) = released_handles (trace s0) ++ [cap s0])
      by reflexivity.
    assert (H2 : opened_handles (trace s0) = seq 0 (next_handle s0)) by reflexivity.
    destruct (while_true_handles env fuel s0 H1 H2) as [Ha Hb].
    destruct (guarded_handles env (while_true fuel (loop_body env)) s0) as [Hrun Hend].
    destruct (fst (while_true fuel (loop_body env) s0)) as [[]|e|] eqn:Hout.
    + destruct Hend as (Hne & Hop & Hrel & Hnext); [discriminate|].
      split; [rewrite Hop, Hnext; exact Hb|].
      split; [discriminate|]. split; [intros _ H; contradiction|].
      intros _ _. rewrite Hrel, Hop. symmetry. exact Ha.
    + destruct Hend as (Hne & Hop & Hrel & Hnext); [discriminate|].
      split; [rewrite Hop, Hnext; exact Hb|].
      split; [discriminate|]. split; [intros _ H; contradiction|].
      intros _ _. rewrite Hrel, Hop. symmetry. exact Ha.
    + rewrite (Hrun eq_refl). cbn [fst snd].
      split; [exact Hb|]. split; [discriminate|].
      split; [intros _ _; exact Ha|]. intros _ H. exfalso. apply H. reflexivity.
  - rewrite (surveillance_loop_unavailable env fuel _ Ho). cbn [fst snd].
    split; [reflexivity|]. split; [intros _; split; reflexivity|].
    split; discriminate.
Qed.

Lemma handles_released_once_witness :
  (camera_opened (scripted fails_once) initial_state = true
   /\ fst (surveillance_loop (scripted fails_once) 2 initial_state) = Running
   /\ opened_handles (trace (snd (surveillance_loop (scripted fails_once) 2 initial_state)))
      = released_handles
          (trace (snd (surveillance_loop (scripted fails_once) 2 initial_state)))
        ++ [cap (snd (surveillance_loop (scripted fails_once) 2 initial_state))])
  /\ (camera_opened (scripted broken_encoder) initial_state = true
      /\ fst (surveillance_loop (scripted broken_encoder) 2 initial_state) <> Running
      /\ released_handles
           (trace (snd (surveillance_loop (scripted broken_encoder) 2 initial_state)))
         = opened_handles
             (trace (snd (surveillance_loop (scripted broken_encoder) 2 initial_state)))).
Proof.
  split; (split; [reflexivity|]).
  - split; [reflexivity|].
    apply (proj1 (proj2 (proj2 (handles_released_once (scripted fails_once) 2))));
      reflexivity.
  - assert (H : fst (surveillance_loop (scripted broken_encoder) 2 initial_state) <> Running)
      by (vm_compute; discriminate).
    split; [exact H|].
    apply (proj2 (proj2 (proj2 (handles_released_once (scripted broken_encoder) 2))));
      [reflexivity|exact H].
Defined.

Lemma safe_read_effects_witness :
  exists c fr s' evs,
    safe_read (scripted fails_once) 0%nat CAMERA_URL opened_state = (Ok (c, fr), s')
    /\ trace s' = trace opened_state ++ evs
    /\ ~ In c (released_handles evs).
Proof.
  destruct (safe_read_effects (scripted fails_once) 0%nat CAMERA_URL opened_state)
    as (c & fr & s' & evs & Hrun & Htr & _ & _ & _ & _ & _ & _ & Hnot & _).
  exists c, fr, s', evs. split; [exact Hrun|]. split; [exact Htr|].
  apply Hnot. vm_compute. lia.
Defined.

(** ** Induction over a run of the program *)

Section RunInduction.

Context {Frame Image : Type}.
Variable env : Env Frame Image.

Variables Head Any : State -> Prop.

Hypothesis Head_Any : forall s, Head s -> Any s.
Hypothesis step :
  forall s, Head s ->
            Any (snd (loop_body env s))
            /\ (fst (loop_body env s) = Ok tt -> Head (snd (loop_body env s))).
Hypothesis Any_print : forall s msg, Any s -> Any (emit_event s (EvPrint msg)).
Hypothesis Any_release : forall s h, Any s -> Any (emit_event s (EvRelease h)).

Lemma while_true_induction (fuel : nat) (s : State) :
  Head s -> Any (snd (while_true fuel (loop_body env) s)).
Proof.
  revert s. induction fuel as [|fuel IH]; intros s H; [apply Head_Any; exact H|].
  simpl. unfold bind. destruct (step s H) as [Ha Hh].
  destruct (loop_body env s) as [[[]|e|] s1]; cbn [fst snd] in *; try exact Ha.
  apply IH. apply Hh. reflexivity.
Qed.

Lemma guarded_induction (body : M unit) (s : State) :
  Any (snd (body s)) -> Any (snd (guarded env body s)).
Proof.
  unfold guarded, try_finally, try_except_KeyboardInterrupt, bind, get_cap, release.
  destruct (body s) as [[[]|[cls msg| |]|] s']; rewrite ?print_ascii by reflexivity;
    cbn [fst snd]; intros H; auto using Any_print, Any_release.
Qed.

(** A property that holds at the head of the loop when it starts, that an
    iteration keeps, and that printing and releasing do not disturb, holds
    in every state a run of the program ends in. *)
Lemma run_induction (fuel : nat) :
  Head (with_frame_count (after_startup env initial_state) 0) ->
  Any (after_startup env initial_state) ->
  Any (snd (surveillance_loop env fuel initial_state)).
Proof.
  intros Hstart Hfail.
  destruct (camera_opened env initial_state) eqn:Ho.
  - rewrite (surveillance_loop_opened env fuel _ Ho).
    apply guarded_induction. apply while_true_induction. exact Hstart.
  - rewrite (surveillance_loop_unavailable env fuel _ Ho). cbn [snd].
    apply Any_print. exact Hfail.
Qed.

End RunInduction.

(** ** Entries and inference calls *)

Lemma calls_made_emit (s : State) (ev : Event) :
  calls_made (emit_event s ev)
  = (calls_made s + if is_chat ev then 1 else 0)%nat.
Proof.
  unfold calls_made, count_events, emit_event. cbn [trace with_trace].
  rewrite filter_app, length_app. simpl. destruct (is_chat ev); reflexivity.
Qed.

Lemma appended_emit (s : State) (ev : Event) :
  appended (trace (emit_event s ev))
  = appended (trace s) ++ match ev with EvAppend e => [e] | _ => [] end.
Proof.
  unfold emit_event. cbn [trace with_trace]. rewrite appended_app.
  destruct ev; reflexivity.
Qed.

Section Entries.

Context {Frame Image : Type}.
Variable env : Env Frame Image.

(** Whatever [describe_image] returns is well formed. *)
Lemma describe_image_ok_shape (img : pystr) (n : Z) (s s' : State) (d : pystr) :
  describe_image env img n s = (Ok d, s') -> well_formed d.
Proof.
  intros H.
  destruct (chat_answer env s img n) as [resp|[c m| |]|] eqn:Hc.
  - destruct (response_text_cases resp) as [[d0 Hd]|(c & m & Hd)].
    + rewrite (describe_image_text env img n s resp d0 Hc Hd) in H.
      injection H as <- _.
      destruct (response_text_ok resp d0 Hd) as (content & _ & ->).
      exact (str_or_strip_shape content).
    + rewrite (describe_image_malformed env img n s resp c m Hc Hd) in H.
      injection H as <- _. exact fallback_shape.
  - destruct (printable env m) eqn:Hp.
    + rewrite (describe_image_chat_raises env img n s c m Hc Hp) in H.
      injection H as <- _. exact fallback_shape.
    + rewrite (describe_image_unprintable env img n s c m Hc Hp) in H. discriminate.
  - rewrite describe_image_passes in H by auto. rewrite Hc in H. discriminate.
  - rewrite describe_image_passes in H by auto. rewrite Hc in H. discriminate.
  - rewrite describe_image_passes in H by auto. rewrite Hc in H. discriminate.
Qed.

(** [describe_image] makes exactly one inference call, however it ends. *)
Lemma describe_image_calls (img : pystr) (n : Z) (s : State) :
  calls_made (snd (describe_image env img n s)) = S (calls_made s).
Proof.
  destruct (chat_answer env s img n) as [resp|[c m| |]|] eqn:Hc.
  - destruct (response_text_cases resp) as [[d0 Hd]|(c & m & Hd)].
    + rewrite (describe_image_text env img n s resp d0 Hc Hd). cbn [snd].
      unfold after_chat. rewrite calls_made_emit. simpl. lia.
    + rewrite (describe_image_malformed env img n s resp c m Hc Hd). cbn [snd].
      unfold after_error, after_chat. rewrite !calls_made_emit. simpl. lia.
  - destruct (printable env m) eqn:Hp.
    + rewrite (describe_image_chat_raises env img n s c m Hc Hp). cbn [snd].
      unfold after_error, after_chat. rewrite !calls_made_emit. simpl. lia.
    + rewrite (describe_image_unprintable env img n s c m Hc Hp). cbn [snd].
      unfold after_chat. rewrite calls_made_emit. simpl. lia.
  - rewrite describe_image_passes by auto. cbn [snd].
    unfold after_chat. rewrite calls_made_emit. simpl. lia.
  - rewrite describe_image_passes by auto. cbn [snd].
    unfold after_chat. rewrite calls_made_emit. simpl. lia.
  - rewrite describe_image_passes by auto. cbn [snd].
    unfold after_chat. rewrite calls_made_emit. simpl. lia.
Qed.

Lemma record_entry_appended (e : LogEntry) (s : State) :
  exists s', record_entry e s = (Ok tt, s')
             /\ appended (trace s') = appended (trace s) ++ [e]
             /\ calls_made s' = calls_made s.
Proof.
  destruct (Nat.lt_ge_cases (length (analysis_logs s)) capacity) as [Hlt|Hge].
  - eexists. split; [apply record_entry_below; exact Hlt|].
    rewrite appended_emit, calls_made_emit. simpl. split; [reflexivity|].
    unfold calls_made. cbn [trace with_logs]. lia.
  - destruct (analysis_logs s) as [|x rest] eqn:Hl;
      [simpl in Hge; unfold capacity in Hge; lia|].
    rewrite <- Hl in Hge.
    eexists. split; [apply (record_entry_full e x rest s Hl Hge)|].
    rewrite appended_emit, calls_made_emit. cbn [is_chat].
    change (appended (trace (with_logs ?a ?b))) with (appended (trace a)).
    rewrite appended_emit.
    unfold calls_made at 1. cbn [trace with_logs].
    fold (calls_made (emit_event (with_logs s (analysis_logs s ++ [e])) (EvAppend e))).
    rewrite calls_made_emit. cbn [is_chat].
    unfold calls_made. cbn [trace with_logs].
    rewrite app_nil_r. split; [reflexivity|lia].
Qed.

(** What lines 76-91 add: one inference call at most, and one entry at
    most, not without a call, well formed and numbered with the new counter;
    a call and an entry when they complete. *)
Lemma process_frame_summary (f : Frame) (s : State) :
  exists new k,
    appended (trace (snd (process_frame env f s))) = appended (trace s) ++ new
    /\ calls_made (snd (process_frame env f s)) = (calls_made s + k)%nat
    /\ (k <= 1)%nat
    /\ Forall (fun e => well_formed (description e)
                        /\ frame_number e = frame_count s + 1
                        /\ timestamp e = strftime_now env (trace s)) new
    /\ (fst (process_frame env f s) = Ok tt -> length new = 1%nat /\ k = 1%nat)
    /\ (length new <= k)%nat.
Proof.
  rewrite process_frame_run. cbv zeta.
  set (n := frame_count s + 1).
  set (ts := strftime_now env (trace s)).
  set (s2 := emit_event (with_frame_count s n) (EvNow ts)).
  assert (Ha2 : appended (trace s2) = appended (trace s))
    by (unfold s2; rewrite appended_emit; apply app_nil_r).
  assert (Hc2 : calls_made s2 = calls_made s)
    by (unfold s2; rewrite calls_made_emit; cbn [is_chat];
        change (calls_made (with_frame_count s n)) with (calls_made s); lia).
  destruct (encode_image env f) as [img|e|]; cbn [fst snd];
    try (exists [], 0%nat; rewrite Ha2, Hc2, app_nil_r;
         repeat split; try (simpl; lia); try constructor; discriminate).
  pose proof (describe_image_calls img n s2) as Hcalls.
  pose proof (store_obs_appended _ _ (proj1 (obs_split _ _ (Quiet_describe_image env img n s2))))
    as Happ.
  destruct (describe_image env img n s2) as [[d|e|] s3] eqn:Hd; cbn [fst snd] in *;
    try (exists [], 1%nat; rewrite Happ, Ha2, Hcalls, Hc2, app_nil_r;
         repeat split; try (simpl; lia); try constructor; discriminate).
  destruct (record_entry_appended (mkLogEntry n ts d) s3) as (s4 & -> & Ha4 & Hc4).
  exists [mkLogEntry n ts d], 1%nat.
  assert (Hall : Forall (fun e => well_formed (description e)
                                  /\ frame_number e = n /\ timestamp e = ts)
                        [mkLogEntry n ts d]).
  { constructor; [|constructor]. cbn [description frame_number timestamp].
    split; [exact (describe_image_ok_shape img n s2 s3 d Hd)|split; reflexivity]. }
  match goal with |- context [print env ?line s4] =>
    destruct (print_cases env line s4) as [-> | ->] end; cbn [fst snd];
    rewrite ?appended_emit, ?calls_made_emit, Ha4, Hc4, Happ, Ha2, Hcalls, Hc2,
      ?app_nil_r; cbn [is_chat];
    (split; [reflexivity|]); (split; [lia|]); (split; [lia|]);
    (split; [exact Hall|]); (split; [|simpl; lia]).
  - intros _. split; reflexivity.
  - discriminate.
Qed.

(** The same for a whole iteration: a cycle without a frame adds nothing. *)
Lemma loop_body_summary (s : State) :
  exists new k,
    appended (trace (snd (loop_body env s))) = appended (trace s) ++ new
    /\ calls_made (snd (loop_body env s)) = (calls_made s + k)%nat
    /\ (k <= 1)%nat
    /\ Forall (fun e => well_formed (description e)
                        /\ frame_number e = frame_count s + 1) new
    /\ (fst (loop_body env s) = Ok tt -> length new = k)
    /\ (length new <= k)%nat
    /\ (forall c, fst (safe_read env (cap s) CAMERA_URL s) = Ok (c, None) ->
                  new = [] /\ k = 0%nat).
Proof.
  rewrite loop_body_run.
  assert (Hk : Keeps calls_made (safe_read env (cap s) CAMERA_URL)).
  { unfold safe_read.
    assert (E : forall s ev, is_chat ev = false -> calls_made (emit_event s ev) = calls_made s)
      by (intros s0 ev H; rewrite calls_made_emit, H; lia).
    keeps E. }
  specialize (Hk s).
  pose proof (Quiet_safe_read env (cap s) CAMERA_URL s) as Hq.
  destruct (obs_split _ _ Hq) as [Hs Hfc]. apply store_obs_appended in Hs.
  destruct (safe_read env (cap s) CAMERA_URL s) as [[[c [f|]]|e|] s1]; cbn [fst snd] in *.
  - destruct (process_frame_summary f (with_cap s1 c))
      as (new & k & Ha & Hc & Hk1 & Hall & Hok & Hno).
    exists new, k.
    change (appended (trace (with_cap s1 c))) with (appended (trace s1)) in Ha.
    change (calls_made (with_cap s1 c)) with (calls_made s1) in Hc.
    change (frame_count (with_cap s1 c)) with (frame_count s1) in Hall.
    rewrite Ha, Hc, Hs, Hk. split; [reflexivity|]. split; [reflexivity|].
    split; [exact Hk1|]. split.
    + eapply Forall_impl; [|exact Hall]. intros e (Hw & Hn & _).
      split; [exact Hw|]. rewrite Hn, Hfc. reflexivity.
    + split; [intros H; destruct (Hok H) as [-> ->]; reflexivity|].
      split; [exact Hno|]. intros c0 H. discriminate.
  - exists [], 0%nat.
    change (appended (trace (with_cap s1 c))) with (appended (trace s1)).
    change (calls_made (with_cap s1 c)) with (calls_made s1).
    rewrite Hs, Hk, app_nil_r. repeat split; try (simpl; lia). constructor.
  - exists [], 0%nat. rewrite Hs, Hk, app_nil_r.
    repeat split; try (simpl; lia); try constructor; discriminate.
  - exists [], 0%nat. rewrite Hs, Hk, app_nil_r.
    repeat split; try (simpl; lia); try constructor; discriminate.
Qed.

End Entries.

(** X3: every description the program stores is well formed.  In a run of
    the program, each entry ever appended, and so each entry of
    [analysis_logs], has a description that is not empty and has no
    whitespace at either end: the fallback, or stripped content. *)
Theorem stored_descriptions_well_formed {Frame Image : Type} (env : Env Frame Image)
        (fuel : nat) :
  Forall (fun e => well_formed (description e))
         (appended (trace (snd (surveillance_loop env fuel initial_state))))
  /\ Forall (fun e => well_formed (description e))
            (analysis_logs (snd (surveillance_loop env fuel initial_state))).
Proof.
  assert (H : Forall (fun e => well_formed (description e))
                (appended (trace (snd (surveillance_loop env fuel initial_state))))).
  { apply (run_induction env
             (fun s => Forall (fun e => well_formed (description e)) (appended (trace s)))
             (fun s => Forall (fun e => well_formed (description e)) (appended (trace s)))).
    - auto.
    - intros s Hs.
      destruct (loop_body_summary env s) as (new & k & Ha & _ & _ & Hall & _).
      assert (Hn : Forall (fun e => well_formed (description e)) (appended (trace s) ++ new)).
      { apply Forall_app. split; [exact Hs|].
        eapply Forall_impl; [|exact Hall]. intros e [Hw _]. exact Hw. }
      rewrite Ha. split; [exact Hn|intros _; exact Hn].
    - intros s msg Hs. rewrite appended_emit, app_nil_r. exact Hs.
    - intros s h Hs. rewrite appended_emit, app_nil_r. exact Hs.
    - constructor.
    - constructor. }
  split; [exact H|].
  rewrite (inv_history _ (surveillance_loop_inv env fuel)) in H.
  apply Forall_app in H. exact (proj2 H).
Qed.

(** X4: one inference call per entry.  In a run of the program the number
    of calls to the inference service is the number of entries appended, or
    one more (a call whose description was not stored because the loop ended
    or hangs in it); an iteration makes at most one call, and none at all
    when [safe_read] returned no frame. *)
Theorem one_inference_call_per_entry {Frame Image : Type} (env : Env Frame Image)
        (fuel : nat) :
  (length (appended (trace (snd (surveillance_loop env fuel initial_state))))
   <= calls_made (snd (surveillance_loop env fuel initial_state))
   <= length (appended (trace (snd (surveillance_loop env fuel initial_state)))) + 1)%nat
  /\ (forall s, (calls_made (snd (loop_body env s)) <= calls_made s + 1)%nat)
  /\ (forall s c, fst (safe_read env (cap s) CAMERA_URL s) = Ok (c, None) ->
                  calls_made (snd (loop_body env s)) = calls_made s).
Proof.
  split; [|split].
  - apply (run_induction env
             (fun s => calls_made s = length (appended (trace s)))
             (fun s => (length (appended (trace s)) <= calls_made s
                        <= length (appended (trace s)) + 1)%nat)).
    + intros s Hs. lia.
    + intros s Hs.
      destruct (loop_body_summary env s) as (new & k & Ha & Hc & Hk & _ & Hok & Hno & _).
      rewrite Ha, Hc, length_app. split; [lia|].
      intros H. rewrite (Hok H). lia.
    + intros s msg Hs. rewrite appended_emit, app_nil_r, calls_made_emit. simpl. lia.
    + intros s h Hs. rewrite appended_emit, app_nil_r, calls_made_emit. simpl. lia.
    + reflexivity.
    + simpl. unfold calls_made, count_events. simpl. lia.
  - intros s. destruct (loop_body_summary env s) as (new & k & _ & Hc & Hk & _).
    rewrite Hc. lia.
  - intros s c H.
    destruct (loop_body_summary env s) as (new & k & _ & Hc & _ & _ & _ & _ & Hnone).
    destruct (Hnone c H) as [_ ->]. rewrite Hc. lia.
Qed.

Lemma one_inference_call_per_entry_witness :
  fst (safe_read (scripted dark) (cap opened_state) CAMERA_URL opened_state)
  = Ok (1%nat, None)
  /\ calls_made (snd (loop_body (scripted dark) opened_state)) = calls_made opened_state.
Proof.
  split; [reflexivity|].
  apply (proj2 (proj2 (one_inference_call_per_entry (scripted dark) 0)) opened_state 1%nat).
  reflexivity.
Defined.

(** ** What [/logs] returns *)

Lemma skipn_Zseq (m n : nat) (first : Z) :
  skipn m (Zseq first n) = Zseq (first + Z.of_nat m) (n - m).
Proof.
  revert n first. induction m as [|m IH]; intros n first.
  - simpl. rewrite Nat.sub_0_r. f_equal. lia.
  - destruct n as [|n]; [reflexivity|].
    cbn [Zseq skipn]. rewrite IH. replace (S n - S m)%nat with (n - m)%nat by lia.
    f_equal. lia.
Qed.

Lemma last_app_cons {A : Type} (a l : list A) (x e : A) :
  last (a ++ x :: l) e = last (x :: l) e.
Proof.
  induction a as [|y a IH]; [reflexivity|].
  change ((y :: a) ++ x :: l) with (y :: (a ++ x :: l)).
  destruct (a ++ x :: l) eqn:E; [destruct a; discriminate|].
  rewrite <- IH. reflexivity.
Qed.

Lemma last_cons_default {A : Type} (x d : A) (l : list A) :
  last (x :: l) d = last l x.
Proof.
  revert x d. induction l as [|y l IH]; intros x d; [reflexivity|].
  change (last (x :: y :: l) d) with (last (y :: l) d).
  rewrite !IH. reflexivity.
Qed.

Lemma logs_from_app (l : list LogEntry) (a b : list Event) :
  logs_from l (a ++ b) = logs_from l a ++ logs_from (last (logs_from l a) l) b.
Proof.
  revert l. induction a as [|ev a IH]; intros l; [reflexivity|].
  destruct ev; cbn [app logs_from]; rewrite ?last_cons_default, IH; reflexivity.
Qed.

Lemma logs_from_emit_quiet (s : State) (ev : Event) :
  quiet_event ev = true ->
  logs_from [] (trace (emit_event s ev)) = logs_from [] (trace s).
Proof.
  intros H. unfold emit_event. cbn [trace with_trace]. rewrite logs_from_app.
  destruct ev; try discriminate; apply app_nil_r.
Qed.

Lemma app_eq_length {A : Type} (a c b d : list A) :
  length a = length c -> a ++ b = c ++ d -> a = c /\ b = d.
Proof.
  revert c. induction a as [|x a IH]; intros [|y c] Hl H; try discriminate.
  - split; [reflexivity|exact H].
  - injection Hl as Hl. injection H as -> H.
    destruct (IH c Hl H) as [-> ->]. split; reflexivity.
Qed.

Lemma Zseq_app (first : Z) (m n : nat) :
  Zseq first (m + n) = Zseq first m ++ Zseq (first + Z.of_nat m) n.
Proof.
  revert first. induction m as [|m IH]; intros first.
  - simpl. f_equal. lia.
  - cbn [Nat.add Zseq app]. rewrite IH. do 3 f_equal. lia.
Qed.

(** A stretch of entries numbered from 1 carries consecutive numbers. *)
Lemma numbers_of_window (all old value later : list LogEntry) :
  map frame_number all = Zseq 1 (length all) ->
  all = old ++ value ++ later ->
  map frame_number value = Zseq (Z.of_nat (length old) + 1) (length value).
Proof.
  intros H ->. rewrite !map_app, !length_app, !Zseq_app in H.
  apply app_eq_length in H; [|rewrite length_map, Zseq_length; reflexivity].
  destruct H as [_ H].
  apply app_eq_length in H; [|rewrite length_map, Zseq_length; reflexivity].
  destruct H as [H _]. rewrite H. f_equal. lia.
Qed.

Lemma Window_later (all new value : list LogEntry) :
  Window all value -> Window (all ++ new) value.
Proof.
  intros (old & later & -> & H). exists old, (later ++ new).
  split; [rewrite <- !app_assoc; reflexivity|exact H].
Qed.

Lemma ValuesInv_keep (s s' : State) :
  logs_from [] (trace s') = logs_from [] (trace s) ->
  store_obs s' = store_obs s ->
  ValuesInv s -> ValuesInv s'.
Proof.
  intros Hv Ho [H1 H2]. unfold store_obs in Ho. injection Ho as Hl Ha _ _.
  split; rewrite Hv, ?Hl, ?Ha; assumption.
Qed.

Lemma ValuesInv_emit_quiet (s : State) (ev : Event) :
  quiet_event ev = true -> ValuesInv s -> ValuesInv (emit_event s ev).
Proof.
  intros H. apply ValuesInv_keep.
  - apply logs_from_emit_quiet. exact H.
  - apply store_obs_emit_quiet. exact H.
Qed.

(** Lines 87-89 add one value to those the list has taken, or two when the
    oldest entry is popped; each is a window on the entries appended. *)
Lemma record_entry_values (e : LogEntry) (s : State) :
  StoreInv s -> ValuesInv s ->
  exists s', record_entry e s = (Ok tt, s') /\ ValuesInv s'.
Proof.
  intros [H1 H2 _ _ H5] [Hlast Hall].
  destruct (Nat.lt_ge_cases (length (analysis_logs s)) capacity) as [Hlt|Hge].
  - eexists. split; [apply record_entry_below; exact Hlt|].
    unfold ValuesInv.
    cbn [trace analysis_logs emit_event with_logs with_trace].
    rewrite logs_from_app, appended_app, Hlast.
    cbn [logs_from appended]. unfold list_append. split; [apply last_last|].
    apply Forall_app. split.
    + eapply Forall_impl; [|exact Hall]. intros v. apply Window_later.
    + constructor; [|constructor].
      exists (evicted (trace s)), []. rewrite H1, app_nil_r, <- app_assoc.
      split; [reflexivity|].
      rewrite length_app. simpl length.
      destruct H5 as [->|H5]; simpl length; unfold capacity in *; lia.
  - destruct (analysis_logs s) as [|x rest] eqn:Hl;
      [simpl in Hge; unfold capacity in Hge; lia|].
    rewrite <- Hl in Hge.
    eexists. split; [apply (record_entry_full e x rest s Hl Hge)|].
    unfold ValuesInv.
    cbn [trace analysis_logs emit_event with_logs with_trace].
    rewrite <- app_assoc, logs_from_app, !appended_app, Hlast.
    cbn [logs_from appended app tl]. unfold list_append. cbn [app tl].
    rewrite ?app_nil_r.
    split; [rewrite last_app_cons; reflexivity|].
    rewrite Hl in Hge. simpl length in Hge, H2.
    apply Forall_app. split.
    + eapply Forall_impl; [|exact Hall]. intros v. apply Window_later.
    + constructor; [|constructor; [|constructor]].
      * exists (evicted (trace s)), []. rewrite H1, app_nil_r, <- app_assoc.
        split; [reflexivity|].
        simpl length. rewrite length_app. simpl length. unfold capacity in *. lia.
      * exists (evicted (trace s) ++ [x]), []. rewrite H1, app_nil_r, <- !app_assoc.
        split; [reflexivity|].
        rewrite !length_app. simpl length. unfold capacity in *. lia.
Qed.

Section Values.

Context {Frame Image : Type}.
Variable env : Env Frame Image.

Lemma Keeps_values_safe_read (c : Handle) (url : pystr) :
  Keeps (fun s => logs_from [] (trace s)) (safe_read env c url).
Proof.
  unfold safe_read.
  assert (E : forall s ev, negb (quiet_event ev) = false ->
                           logs_from [] (trace (emit_event s ev)) = logs_from [] (trace s))
    by (intros s ev H; apply logs_from_emit_quiet; destruct (quiet_event ev);
        [reflexivity|discriminate]).
  keeps E.
Qed.

Lemma Keeps_values_describe_image (img : pystr) (n : Z) :
  Keeps (fun s => logs_from [] (trace s)) (describe_image env img n).
Proof.
  unfold describe_image.
  assert (E : forall s ev, negb (quiet_event ev) = false ->
                           logs_from [] (trace (emit_event s ev)) = logs_from [] (trace s))
    by (intros s ev H; apply logs_from_emit_quiet; destruct (quiet_event ev);
        [reflexivity|discriminate]).
  keeps E.
Qed.

(** Lines 76-91 keep the record of values in order, however they end. *)
Lemma process_frame_values (f : Frame) (s : State) :
  LoopInv s -> ValuesInv s -> ValuesInv (snd (process_frame env f s)).
Proof.
  intros [Hinv Hc] Hv. rewrite process_frame_run. cbv zeta.
  set (n := frame_count s + 1).
  set (ts := strftime_now env (trace s)).
  set (s2 := emit_event (with_frame_count s n) (EvNow ts)).
  assert (Hv2 : ValuesInv s2)
    by (apply (ValuesInv_emit_quiet (with_frame_count s n)); [reflexivity|exact Hv]).
  assert (Hs2 : store_obs s2 = store_obs s)
    by (apply (store_obs_emit_quiet (with_frame_count s n)); reflexivity).
  destruct (encode_image env f) as [img|e|]; cbn [snd]; try exact Hv2.
  pose proof (proj1 (obs_split _ _ (Quiet_describe_image env img n s2))) as Hs3.
  pose proof (Keeps_values_describe_image img n s2) as Hk3. cbn beta in Hk3.
  assert (Hv3 : ValuesInv (snd (describe_image env img n s2)))
    by exact (ValuesInv_keep _ _ Hk3 Hs3 Hv2).
  rewrite Hs2 in Hs3.
  destruct (describe_image env img n s2) as [[d|e|] s3]; cbn [snd] in *; try exact Hv3.
  destruct (record_entry_values (mkLogEntry n ts d) s3 (StoreInv_obs _ _ Hs3 Hinv) Hv3)
    as (s4 & -> & Hv4).
  match goal with |- context [print env ?line s4] =>
    destruct (print_cases env line s4) as [-> | ->] end; cbn [snd].
  - apply ValuesInv_emit_quiet; [reflexivity|exact Hv4].
  - exact Hv4.
Qed.

Lemma loop_body_values (s : State) :
  LoopInv s -> ValuesInv s -> ValuesInv (snd (loop_body env s)).
Proof.
  intros Hinv Hv. rewrite loop_body_run.
  pose proof (Quiet_safe_read env (cap s) CAMERA_URL s) as Hq.
  pose proof (Keeps_values_safe_read (cap s) CAMERA_URL s) as Hk. cbn beta in Hk.
  assert (Hv1 : ValuesInv (snd (safe_read env (cap s) CAMERA_URL s)))
    by exact (ValuesInv_keep _ _ Hk (proj1 (obs_split _ _ Hq)) Hv).
  destruct (safe_read env (cap s) CAMERA_URL s) as [[[c [f|]]|e|] s1]; cbn [snd] in *;
    try exact Hv1.
  apply process_frame_values; [|exact Hv1].
  exact (LoopInv_obs s (with_cap s1 c) Hq Hinv).
Qed.

(** In every state a run of the program ends in, the values the list has
    taken are on record as [ValuesInv] says. *)
Lemma surveillance_loop_values (fuel : nat) :
  ValuesInv (snd (surveillance_loop env fuel initial_state)).
Proof.
  apply (run_induction env (fun s => LoopInv s /\ ValuesInv s) ValuesInv).
  - intros s [_ H]. exact H.
  - intros s [Hinv Hv]. split; [exact (loop_body_values s Hinv Hv)|].
    intros Hok. split; [|exact (loop_body_values s Hinv Hv)].
    exact (proj2 (loop_body_inv env s Hinv) Hok).
  - intros s msg. apply ValuesInv_emit_quiet. reflexivity.
  - intros s h. apply ValuesInv_emit_quiet. reflexivity.
  - split.
    + apply (LoopInv_obs initial_state); [|exact StoreInv_initial].
      change (obs (after_startup env initial_state) = obs initial_state).
      apply obs_after_startup.
    + apply (ValuesInv_keep initial_state).
      * unfold after_startup, at_open.
        change (logs_from [] (trace (emit_event
                  (with_cap (with_next_handle
                     (emit_event (emit_event initial_state (EvPrint started_message))
                        (EvOpen CAMERA_URL (next_handle initial_state)))
                     (S (next_handle initial_state))) (next_handle initial_state))
                  (EvIsOpened (next_handle initial_state)
                     (camera_opened env initial_state))))
                = logs_from [] (trace initial_state)).
        reflexivity.
      * exact (proj1 (obs_split _ _ (obs_after_startup env initial_state))).
      * split; [reflexivity|constructor].
  - apply (ValuesInv_keep initial_state).
    + reflexivity.
    + exact (proj1 (obs_split _ _ (obs_after_startup env initial_state))).
    + split; [reflexivity|constructor].
Qed.

End Values.

(** X5: the list [/logs] hands out carries consecutive frame numbers, at
    every time of a run.  [get_logs] returns the list as it is when it is
    called, and leaves it as it is.  Every value the list takes in a run,
    the one between line 87 and line 89 included, is a window on the
    entries appended: with [k] entries appended by then it holds the last
    [min k 100] of them or one more, at most 101, oldest first, numbered
    without a gap up to [k].  The last of these values is the list the run
    ends with, which holds [min k 100] entries, the last one being the last
    entry appended. *)
Theorem logs_show_consecutive_numbers {Frame Image : Type} (env : Env Frame Image)
        (fuel : nat) :
  let s' := snd (surveillance_loop env fuel initial_state) in
  let all := appended (trace s') in
  let k := length all in
  let shown := analysis_logs s' in
  (forall s : State, get_logs s = (Ok (analysis_logs s), s))
  /\ last (logs_from [] (trace s')) [] = shown
  /\ Forall (fun value =>
               exists old later,
                 all = old ++ value ++ later
                 /\ (Nat.min (length old + length value) 100 <= length value
                     <= Nat.min (length old + length value) 101)%nat
                 /\ map frame_number value
                    = Zseq (Z.of_nat (length old) + 1) (length value))
            (logs_from [] (trace s'))
  /\ length shown = Nat.min k 100
  /\ map frame_number shown
     = Zseq (Z.of_nat k - Z.of_nat (length shown) + 1) (length shown)
  /\ (forall e, last shown e = last all e).
Proof.
  intros s' all k shown.
  pose proof (surveillance_loop_inv env fuel) as Hinv. fold s' in Hinv.
  pose proof (surveillance_loop_values env fuel) as [Hlast Hall]. fold s' in Hlast, Hall.
  pose proof (StoreInv_most_recent s' Hinv) as Hrec. fold shown in Hrec.
  assert (Hlen : length shown = Nat.min k 100).
  { rewrite Hrec, most_recent_length. unfold capacity, k, all. lia. }
  split; [reflexivity|]. split; [exact Hlast|]. split; [|split; [exact Hlen|split]].
  - eapply Forall_impl; [|exact Hall].
    intros value (old & later & Heq & Hb). exists old, later.
    split; [exact Heq|]. split; [exact Hb|].
    exact (numbers_of_window _ old value later (inv_numbers _ Hinv) Heq).
  - rewrite Hlen. rewrite Hrec at 1. unfold most_recent.
    rewrite <- skipn_map, (inv_numbers _ Hinv). fold all. fold k.
    rewrite skipn_Zseq. unfold capacity. f_equal; lia.
  - intros e. unfold all. rewrite (inv_history _ Hinv). fold shown.
    destruct shown as [|x l] eqn:Hs.
    + destruct (inv_evictions _ Hinv) as [->|H]; [reflexivity|].
      fold shown in H. rewrite Hs in H. discriminate.
    + symmetry. apply last_app_cons.
Qed.

(** ** The effects of one processed frame *)

(** X6: order of effects for a frame.  When the encoder returns and the
    inference call returns a response with usable text, lines 76-91
    increment the counter, read the clock, make one inference call with the
    model name, the prompt for the new frame number and the encoded image,
    append the entry, pop the oldest entry if the list then holds more than
    100, and print the description; the timestamp of the entry is the clock
    reading taken before the inference call.  The [print] of line 91 comes
    after the entry has been stored: when [sys.stdout] cannot encode the
    description, it raises [UnicodeEncodeError] with nothing printed and the
    entry already in the list. *)
Theorem processed_frame_effects {Frame Image : Type} (env : Env Frame Image)
        (f : Frame) (s : State) (img : pystr) (resp : PyVal) (d : pystr) :
  encode_image env f = Ok img ->
  chat_answer env
    (emit_event (with_frame_count s (frame_count s + 1))
                (EvNow (strftime_now env (trace s))))
    img (frame_count s + 1) = Ok resp ->
  response_text resp = Ok d ->
  let n := frame_count s + 1 in
  let ts := strftime_now env (trace s) in
  let e := mkLogEntry n ts d in
  let line := py "Frame " ++ str_of_int n ++ py ": " ++ d in
  exists s',
    process_frame env f s
    = (if printable env d then Ok tt
       else Raise (Exc (py "UnicodeEncodeError") (stdout_error env line)), s')
    /\ trace s' = trace s
                  ++ [EvNow ts; EvChat MODEL_NAME (prompt n) img; EvAppend e]
                  ++ (if (100 <=? length (analysis_logs s))%nat
                      then [EvPop (hd e (analysis_logs s))] else [])
                  ++ (if printable env d then [EvPrint line] else [])
    /\ analysis_logs s' = log_append (analysis_logs s) e
    /\ frame_count s' = n
    /\ cap s' = cap s.
Proof.
  intros Henc Hchat Hd n ts e line.
  rewrite process_frame_run. cbv zeta. rewrite Henc.
  rewrite (describe_image_text env img _ _ resp d Hchat Hd).
  fold n ts. fold e. fold line.
  set (s3 := after_chat _ img n).
  assert (Hline : printable env line = printable env d) by apply frame_line_printable.
  destruct (Nat.lt_ge_cases (length (analysis_logs s)) capacity) as [Hlt|Hge].
  - rewrite (record_entry_below e s3) by exact Hlt.
    unfold print. rewrite Hline.
    destruct (Nat.leb_spec 100 (length (analysis_logs s))); [unfold capacity in *; lia|].
    destruct (printable env d); eexists; (split; [reflexivity|]);
      cbn [trace analysis_logs frame_count cap emit_event with_logs with_trace
           with_frame_count after_chat s3];
      rewrite <- ?app_assoc; cbn [app]; rewrite ?app_nil_r;
      rewrite log_append_below by exact Hlt; repeat split.
  - destruct (analysis_logs s) as [|x rest] eqn:Hl;
      [simpl in Hge; unfold capacity in Hge; lia|].
    assert (Hl3 : analysis_logs s3 = x :: rest) by exact Hl.
    assert (Hge3 : (capacity <= length (analysis_logs s3))%nat) by (rewrite Hl3; exact Hge).
    rewrite (record_entry_full e x rest s3 Hl3 Hge3).
    unfold print. rewrite Hline.
    destruct (Nat.leb_spec 100 (length (x :: rest))); [|unfold capacity in *; lia].
    destruct (printable env d); eexists; (split; [reflexivity|]);
      cbn [trace analysis_logs frame_count cap emit_event with_logs with_trace
           with_frame_count after_chat s3];
      rewrite <- ?app_assoc; cbn [app hd]; rewrite ?app_nil_r;
      rewrite log_append_full by exact Hge; repeat split.
Qed.

Lemma processed_frame_effects_witness :
  (exists s',
     process_frame (scripted end_to_end) 0%N opened_state = (Ok tt, s')
     /\ analysis_logs s' = [mkLogEntry 1 (py "2025-01-01 00:00:00") (py "A")]
     /\ frame_count s' = 1)
  /\ exists s',
       process_frame (scripted_with_stdout utf8_stdout lone_surrogate) 0%N opened_state
       = (Raise (Exc (py "UnicodeEncodeError") (py "codec can't encode character")), s')
       /\ analysis_logs s'
          = [mkLogEntry 1 (py "2025-01-01 00:00:00") (py "ok " ++ [55357%N])]
       /\ last (trace s') (EvSleep 0)
          = EvAppend (mkLogEntry 1 (py "2025-01-01 00:00:00") (py "ok " ++ [55357%N])).
Proof.
  split.
  - destruct (processed_frame_effects (scripted end_to_end) 0%N opened_state [0%N]
                (response_with (PyStr (py "A"))) (py "A") eq_refl eq_refl eq_refl)
      as (s' & Hrun & _ & Hlogs & Hfc & _).
    exists s'. split; [exact Hrun|]. split; [exact Hlogs|exact Hfc].
  - destruct (processed_frame_effects (scripted_with_stdout utf8_stdout lone_surrogate)
                0%N opened_state [0%N]
                (response_with (PyStr (py "ok " ++ [55357%N]))) (py "ok " ++ [55357%N])
                eq_refl eq_refl eq_refl)
      as (s' & Hrun & Htr & Hlogs & _).
    exists s'. split; [exact Hrun|]. split; [exact Hlogs|].
    rewrite Htr. reflexivity.
Defined.

(** X7: an interrupt during the inference call.  When the call raises
    [KeyboardInterrupt], the frame counter has been incremented but no entry
    is appended for the frame; the loop prints "Monitoring stopped.",
    releases the current capture object and [surveillance_loop] returns
    normally.  [SystemExit] is not handled: the capture object is released
    and the exception propagates. *)
Theorem interrupt_ends_loop {Frame Image : Type} (env : Env Frame Image)
        (fuel : nat) (s s1 : State) (c : Handle) (f : Frame) (img : pystr) (e : Exn) :
  safe_read env (cap s) CAMERA_URL s = (Ok (c, Some f), s1) ->
  encode_image env f = Ok img ->
  chat_answer env
    (emit_event (with_frame_count (with_cap s1 c) (frame_count s1 + 1))
                (EvNow (strftime_now env (trace s1))))
    img (frame_count s1 + 1) = Raise e ->
  e = KeyboardInterrupt \/ e = SystemExit ->
  exists s',
    guarded env (while_true (S fuel) (loop_body env)) s
    = (match e with KeyboardInterrupt => Ok tt | _ => Raise e end, s')
    /\ trace s' = trace s1
                  ++ [EvNow (strftime_now env (trace s1));
                      EvChat MODEL_NAME (prompt (frame_count s1 + 1)) img]
                  ++ match e with
                     | KeyboardInterrupt => [EvPrint (py "Monitoring stopped.")]
                     | _ => []
                     end
                  ++ [EvRelease c]
    /\ analysis_logs s' = analysis_logs s
    /\ frame_count s' = frame_count s + 1.
Proof.
  intros Hread Henc Hchat He.
  pose proof (Quiet_safe_read env (cap s) CAMERA_URL s) as Hq.
  rewrite Hread in Hq. cbn [snd] in Hq.
  destruct (obs_split _ _ Hq) as [Hst Hfc].
  assert (Hlogs : analysis_logs s1 = analysis_logs s)
    by (unfold store_obs in Hst; congruence).
  assert (Hbody : loop_body env s
                  = (Raise e,
                     after_chat
                       (emit_event (with_frame_count (with_cap s1 c) (frame_count s1 + 1))
                                   (EvNow (strftime_now env (trace s1))))
                       img (frame_count s1 + 1))).
  { rewrite loop_body_run, Hread, process_frame_run. cbv zeta. rewrite Henc.
    cbn [frame_count trace with_cap].
    rewrite describe_image_passes by (rewrite Hchat; destruct He as [->| ->]; auto).
    rewrite Hchat. reflexivity. }
  assert (Hloop : while_true (S fuel) (loop_body env) s
                  = (Raise e,
                     after_chat
                       (emit_event (with_frame_count (with_cap s1 c) (frame_count s1 + 1))
                                   (EvNow (strftime_now env (trace s1))))
                       img (frame_count s1 + 1)))
    by (simpl; unfold bind; rewrite Hbody; reflexivity).
  unfold guarded, try_finally, try_except_KeyboardInterrupt.
  rewrite Hloop. unfold bind, get_cap, release.
  destruct He as [->| ->]; rewrite ?print_ascii by reflexivity;
    eexists; (split; [reflexivity|]);
    cbn [trace analysis_logs frame_count cap emit_event with_trace with_frame_count
         with_cap after_chat];
    rewrite <- !app_assoc; cbn [app]; rewrite Hlogs, Hfc; repeat split.
Qed.

Lemma interrupt_ends_loop_witness :
  exists s',
    guarded (scripted {| script_opened := true; script_reads := [true];
                         script_encode := Ok tt;
                         script_chats := [Raise KeyboardInterrupt] |})
      (while_true 3 (loop_body
               (scripted {| script_opened := true; script_reads := [true];
                            script_encode := Ok tt;
                            script_chats := [Raise KeyboardInterrupt] |})))
      opened_state
    = (Ok tt, s')
    /\ analysis_logs s' = []
    /\ frame_count s' = 1.
Proof.
  destruct (interrupt_ends_loop
              (scripted {| script_opened := true; script_reads := [true];
                           script_encode := Ok tt;
                           script_chats := [Raise KeyboardInterrupt] |})
              2 opened_state (emit_event opened_state (EvRead 0%nat true)) 0%nat 0%N [0%N]
              KeyboardInterrupt eq_refl eq_refl eq_refl (or_introl eq_refl))
    as (s' & Hrun & _ & Hlogs & Hfc).
  exists s'. split; [exact Hrun|]. split; [exact Hlogs|exact Hfc].
Defined.

(** ** Responses [describe_image] falls back on *)

Lemma dict_get_missing (d : list (pystr * PyVal)) (key : pystr) (default : PyVal) :
  dict_mem d key = false -> dict_get d key default = default.
Proof.
  induction d as [|[k v] d IH]; simpl; [reflexivity|].
  destruct (pystr_eqb k key); simpl; [discriminate|exact IH].
Qed.

(** X8: the fallback is silent for missing keys and reported for wrong
    types.  On a response that is a mapping without the key "message", or
    whose message is a mapping without the key "content", [describe_image]
    returns the fallback and prints nothing.  On a response that is not a
    mapping, or whose message is not a mapping, or whose content is not a
    string, the [AttributeError] is caught, printed once, and the fallback is
    returned. *)
Theorem describe_image_fallback_cases {Frame Image : Type} (env : Env Frame Image)
        (img : pystr) (n : Z) (s : State) (resp : PyVal) :
  chat_answer env s img n = Ok resp ->
  ((exists d, resp = PyDict d
              /\ (dict_mem d (py "message") = false
                  \/ exists m, dict_get d (py "message") (PyDict []) = PyDict m
                               /\ dict_mem m (py "content") = false)) ->
   describe_image env img n s = (Ok fallback, after_chat s img n))
  /\ ((forall d, resp <> PyDict d)
      \/ (exists d, resp = PyDict d
                    /\ forall m, dict_get d (py "message") (PyDict []) <> PyDict m)
      \/ (exists d m, resp = PyDict d
                      /\ dict_get d (py "message") (PyDict []) = PyDict m
                      /\ forall c, dict_get m (py "content") (PyStr []) <> PyStr c) ->
      exists msg,
        describe_image env img n s
        = (Ok fallback,
           after_error (after_chat s img n) (Exc (py "AttributeError") msg))
        /\ trace (after_error (after_chat s img n) (Exc (py "AttributeError") msg))
           = trace s ++ [EvChat MODEL_NAME (prompt n) img;
                         EvPrint (py "Error describing image: " ++ msg)]).
Proof.
  intros Hc. split.
  - intros (d & -> & H).
    apply (describe_image_text env img n s (PyDict d) fallback Hc).
    unfold response_text, response_content. cbn [method_get obind].
    destruct H as [H|(m & Hm & H)].
    + rewrite (dict_get_missing d _ _ H). reflexivity.
    + rewrite Hm. cbn [method_get obind]. rewrite (dict_get_missing m _ _ H). reflexivity.
  - intros H.
    assert (Hr : exists msg, response_text resp = Raise (Exc (py "AttributeError") msg)).
    { unfold response_text, response_content.
      destruct H as [H|[(d & -> & H)|(d & m & -> & Hm & H)]].
      - destruct resp; try (eexists; reflexivity). exfalso. exact (H d eq_refl).
      - cbn [method_get obind].
        destruct (dict_get d (py "message") (PyDict [])) eqn:E;
          try (eexists; reflexivity). exfalso. exact (H d0 eq_refl).
      - cbn [method_get obind]. rewrite Hm. cbn [method_get obind].
        destruct (dict_get m (py "content") (PyStr [])) eqn:E;
          try (eexists; reflexivity). exfalso. exact (H s0 eq_refl). }
    destruct Hr as [msg Hr]. exists msg.
    split; [apply (describe_image_malformed env img n s resp _ msg Hc Hr)|].
    unfold after_error, after_chat. cbn [trace emit_event with_trace exn_str].
    rewrite <- app_assoc. reflexivity.
Qed.

Lemma describe_image_fallback_cases_witness :
  describe_image (scripted (steady 1)) [] 1 initial_state
  = (Ok fallback, after_chat initial_state [] 1).
Proof.
  apply (proj1 (describe_image_fallback_cases (scripted (steady 1)) [] 1 initial_state
                  (PyDict []) eq_refl)).
  exists []. split; [reflexivity|]. left. reflexivity.
Defined.

(** ** What stripping removes *)

Lemma lstrip_whitespace_prefix (s : pystr) :
  exists a, s = a ++ lstrip s /\ forallb isspace a = true.
Proof.
  induction s as [|x s (a & IH & Ha)]; [exists []; split; reflexivity|].
  simpl. destruct (isspace x) eqn:Hx.
  - exists (x :: a). simpl. rewrite Hx, Ha. split; [f_equal; exact IH|reflexivity].
  - exists []. split; reflexivity.
Qed.

Lemma rstrip_whitespace_suffix (s : pystr) :
  exists b, s = rstrip s ++ b /\ forallb isspace b = true.
Proof.
  destruct (lstrip_whitespace_prefix (rev s)) as (a & Ha & Hw).
  exists (rev a). unfold rstrip. split.
  - rewrite <- rev_app_distr, <- Ha, rev_involutive. reflexivity.
  - rewrite forallb_forall in *. intros x Hx. apply Hw. apply in_rev. exact Hx.
Qed.

(** X9: only whitespace at the ends is removed.  When the response has
    string content that is not all whitespace, the description returned is
    that content without a run of whitespace at its start and one at its
    end; nothing inside is changed. *)
Theorem description_is_trimmed_content {Frame Image : Type} (env : Env Frame Image)
        (img : pystr) (n : Z) (s : State) (resp : PyVal) (content : pystr) :
  chat_answer env s img n = Ok resp ->
  response_content resp = Ok (PyStr content) ->
  strip content <> [] ->
  exists a b,
    describe_image env img n s = (Ok (strip content), after_chat s img n)
    /\ content = a ++ strip content ++ b
    /\ forallb isspace a = true
    /\ forallb isspace b = true.
Proof.
  intros Hc Hcontent Hne.
  destruct (lstrip_whitespace_prefix content) as (a & Ha & Hwa).
  destruct (rstrip_whitespace_suffix (lstrip content)) as (b & Hb & Hwb).
  exists a, b. split; [|split; [|split; assumption]].
  - apply (describe_image_text env img n s resp _ Hc).
    rewrite (response_text_content resp content Hcontent).
    destruct (strip content); [contradiction|reflexivity].
  - unfold strip. rewrite <- Hb. exact Ha.
Qed.

Lemma description_is_trimmed_content_witness :
  exists a b,
    describe_image (scripted end_to_end) [] 2 (with_trace initial_state [EvChat [] [] []])
    = (Ok (strip (py " B ")), after_chat (with_trace initial_state [EvChat [] [] []]) [] 2)
    /\ py " B " = a ++ strip (py " B ") ++ b
    /\ forallb isspace a = true
    /\ forallb isspace b = true.
Proof.
  apply (description_is_trimmed_content (scripted end_to_end) [] 2
           (with_trace initial_state [EvChat [] [] []])
           (response_with (PyStr (py " B "))) (py " B ")); [reflexivity|reflexivity|].
  vm_compute. discriminate.
Defined.

(** ** The dashboard script *)

Lemma starts_with_prefix (sub rest : jsstr) : starts_with (sub ++ rest) sub = true.
Proof.
  induction sub as [|y sub IH]; [reflexivity|].
  simpl. rewrite N.eqb_refl, IH. reflexivity.
Qed.

Lemma starts_with_inv (s sub : jsstr) :
  starts_with s sub = true -> exists rest, s = sub ++ rest.
Proof.
  revert s. induction sub as [|y sub IH]; intros s H; [exists s; reflexivity|].
  destruct s as [|x s]; [discriminate|]. simpl in H.
  apply andb_true_iff in H. destruct H as [Hx H]. apply N.eqb_eq in Hx. subst y.
  destruct (IH s H) as [rest ->]. exists rest. reflexivity.
Qed.

(** [includes] is the substring test. *)
Lemma includes_iff (s sub : jsstr) :
  includes s sub = true <-> exists a b, s = a ++ sub ++ b.
Proof.
  split.
  - induction s as [|x s IH]; simpl; intros H.
    + rewrite orb_false_r in H. destruct (starts_with_inv [] sub H) as [rest ->].
      exists [], rest. reflexivity.
    + apply orb_true_iff in H. destruct H as [H|H].
      * destruct (starts_with_inv (x :: s) sub H) as [rest ->]. exists [], rest. reflexivity.
      * destruct (IH H) as (a & b & ->). exists (x :: a), b. reflexivity.
  - intros (a & b & ->). induction a as [|x a IH].
    + simpl app. destruct (sub ++ b) eqn:E; simpl.
      * destruct sub; [reflexivity|discriminate].
      * rewrite <- E, starts_with_prefix. reflexivity.
    + simpl. rewrite IH. apply orb_true_r.
Qed.

Lemma filter_length_le {A : Type} (p q : A -> bool) (l : list A) :
  (forall x, In x l -> p x = true -> q x = true) ->
  (length (filter p l) <= length (filter q l))%nat.
Proof.
  induction l as [|x l IH]; intros H; [reflexivity|].
  simpl. assert (IH' := IH (fun y Hy => H y (or_intror Hy))).
  destruct (p x) eqn:Hp.
  - rewrite (H x (or_introl eq_refl) Hp). simpl. lia.
  - destruct (q x); simpl; lia.
Qed.

Lemma filter_map_length {A B : Type} (g : B -> bool) (h : A -> B) (l : list A) :
  length (filter g (map h l)) = length (filter (fun x => g (h x)) l).
Proof.
  induction l as [|x l IH]; [reflexivity|].
  simpl. destruct (g (h x)); simpl; rewrite IH; reflexivity.
Qed.

(** X10: the counter of recent alerts never exceeds the badges shown.
    Whatever [toLowerCase] does, every entry counted under "Recent Alerts"
    is rendered with the ALERT or the CRITICAL badge, so the counter is at
    most the number of cards with such a badge, itself at most "Total Logs";
    there is one card per entry of the array, newest first. *)
Theorem alerts_counted_have_badges (toLowerCase : jsstr -> jsstr) (data : list JsLog) :
  let page := fetchLogs toLowerCase data in
  (forall l, counts_as_alert toLowerCase l = true -> priority_of toLowerCase l <> Normal)
  /\ (recentAlerts page <= length (filter has_badge (cards page)))%nat
  /\ (length (filter has_badge (cards page)) <= totalLogs page)%nat
  /\ length (cards page) = totalLogs page
  /\ map fst (cards page) = rev data.
Proof.
  intros page.
  assert (Hb : forall l, counts_as_alert toLowerCase l = true ->
                         priority_of toLowerCase l <> Normal).
  { intros l H. unfold counts_as_alert in H. unfold priority_of. cbv zeta.
    destruct (log_description l); [discriminate|].
    destruct (includes (toLowerCase (n :: j)) (py "critical")
              || includes (toLowerCase (n :: j)) (py "emergency")); [discriminate|].
    apply orb_true_iff in H. destruct H as [-> | ->]; simpl;
      rewrite ?orb_true_r; discriminate. }
  split; [exact Hb|]. unfold page, fetchLogs. cbn [totalLogs recentAlerts cards].
  split; [|split; [|split]].
  - rewrite filter_map_length, filter_rev, length_rev.
    apply filter_length_le. intros l _ H. unfold has_badge. cbn [snd].
    specialize (Hb l H). destruct (priority_of toLowerCase l); [contradiction| |]; reflexivity.
  - rewrite filter_map_length, filter_rev, length_rev.
    clear. induction data as [|x l IH]; simpl; [lia|].
    destruct (has_badge (x, priority_of toLowerCase x)); simpl; lia.
  - rewrite length_map, length_rev. reflexivity.
  - rewrite map_map. simpl. apply map_id.
Qed.

Lemma alerts_counted_have_badges_witness :
  counts_as_alert ascii_lower (mkJsLog 7 [] (py "Warning: smoke")) = true
  /\ priority_of ascii_lower (mkJsLog 7 [] (py "Warning: smoke")) <> Normal.
Proof.
  split; [reflexivity|].
  apply (proj1 (alerts_counted_have_badges ascii_lower [])). reflexivity.
Defined.

(** ** How the loop ends, and how often it reconnects *)

Lemma pace_obs_emit (s : State) (ev : Event) :
  is_handle_event ev || is_sleep ev = false -> pace_obs (emit_event s ev) = pace_obs s.
Proof.
  intros H. unfold pace_obs, emit_event. cbn [trace with_trace].
  rewrite opened_handles_app, filter_app.
  destruct ev; try discriminate; simpl; rewrite !app_nil_r; reflexivity.
Qed.

Section Endings.

Context {Frame Image : Type}.
Variable env : Env Frame Image.

(** [while True] has no [break]: the loop itself never completes. *)
Lemma while_true_never_returns (fuel : nat) (body : M unit) (s : State) :
  fst (while_true fuel body s) <> Ok tt.
Proof.
  revert s. induction fuel as [|fuel IH]; intros s; [discriminate|].
  simpl. unfold bind. destruct (body s) as [[[]|e|] s1]; [apply IH|discriminate|discriminate].
Qed.

Lemma Keeps_pace_process_frame (f : Frame) : Keeps pace_obs (process_frame env f).
Proof.
  unfold process_frame, record_entry, describe_image. keeps pace_obs_emit.
Qed.

End Endings.

(** X11: how [surveillance_loop] can end.  It returns normally only when
    the camera could not be opened, or when a [KeyboardInterrupt] stopped the
    loop, after printing "Monitoring stopped." and releasing the current
    capture object.  A [KeyboardInterrupt] never leaves it, and any other
    exception leaves it only after the current capture object has been
    released. *)
Theorem loop_exits {Frame Image : Type} (env : Env Frame Image) (fuel : nat) :
  let r := surveillance_loop env fuel initial_state in
  (fst r = Ok tt ->
   (camera_opened env initial_state = false
    /\ last (trace (snd r)) (EvSleep 0) = EvPrint (py "Error: Cannot open camera stream."))
   \/ (camera_opened env initial_state = true
       /\ exists t, trace (snd r)
                    = t ++ [EvPrint (py "Monitoring stopped."); EvRelease (cap (snd r))]))
  /\ (forall e, fst r = Raise e ->
                e <> KeyboardInterrupt
                /\ camera_opened env initial_state = true
                /\ exists t, trace (snd r) = t ++ [EvRelease (cap (snd r))]).
Proof.
  intros r. unfold r.
  destruct (camera_opened env initial_state) eqn:Ho.
  - rewrite (surveillance_loop_opened env fuel _ Ho).
    set (s0 := with_frame_count (after_startup env initial_state) 0).
    pose proof (while_true_never_returns fuel (loop_body env) s0) as Hnever.
    unfold guarded, try_finally, try_except_KeyboardInterrupt, bind, get_cap, release.
    destruct (while_true fuel (loop_body env) s0) as [[[]|[cls msg| |]|] s1];
      rewrite ?print_ascii by reflexivity; cbn [fst snd] in *.
    + exfalso. apply Hnever. reflexivity.
    + split; [discriminate|]. intros e He. injection He as <-.
      split; [discriminate|]. split; [reflexivity|]. exists (trace s1). reflexivity.
    + split; [|discriminate]. intros _. right. split; [reflexivity|].
      exists (trace s1). cbn [trace cap emit_event with_trace].
      rewrite <- app_assoc. reflexivity.
    + split; [discriminate|]. intros e He. injection He as <-.
      split; [discriminate|]. split; [reflexivity|]. exists (trace s1). reflexivity.
    + split; discriminate.
  - rewrite (surveillance_loop_unavailable env fuel _ Ho). cbn [fst snd].
    split; [|discriminate]. intros _. left. split; [reflexivity|].
    cbn [trace emit_event with_trace]. apply last_last.
Qed.

Lemma loop_exits_witness :
  fst (surveillance_loop (scripted broken_encoder) 4 initial_state)
  = Raise (Exc (py "cv2.error") (py "cvtColor failed"))
  /\ exists t,
       trace (snd (surveillance_loop (scripted broken_encoder) 4 initial_state))
       = t ++ [EvRelease (cap (snd (surveillance_loop (scripted broken_encoder) 4
                                      initial_state)))].
Proof.
  split; [reflexivity|].
  apply (proj2 (loop_exits (scripted broken_encoder) 4)
           (Exc (py "cv2.error") (py "cvtColor failed")) eq_refl).
Defined.

(** X12: reconnects are paced.  In a run of the program there is no
    reopening of the source without a pause: the number of capture objects
    created is one more than the number of calls to [time.sleep], and every
    pause lasts one second. *)
Theorem reconnects_are_paced {Frame Image : Type} (env : Env Frame Image) (fuel : nat) :
  let t := trace (snd (surveillance_loop env fuel initial_state)) in
  length (opened_handles t) = S (count_events is_sleep t)
  /\ Forall (fun ev => ev = EvSleep 1) (filter is_sleep t).
Proof.
  intros t. unfold t, count_events.
  apply (run_induction env
           (fun s => length (opened_handles (trace s)) = S (length (filter is_sleep (trace s)))
                     /\ Forall (fun ev => ev = EvSleep 1) (filter is_sleep (trace s)))
           (fun s => length (opened_handles (trace s)) = S (length (filter is_sleep (trace s)))
                     /\ Forall (fun ev => ev = EvSleep 1) (filter is_sleep (trace s)))).
  - auto.
  - intros s [H1 H2].
    assert (Hgoal : let s' := snd (loop_body env s) in
              length (opened_handles (trace s')) = S (length (filter is_sleep (trace s')))
              /\ Forall (fun ev => ev = EvSleep 1) (filter is_sleep (trace s'))).
    { rewrite loop_body_run, safe_read_run.
      assert (Hkeep : forall f c s1,
                 length (opened_handles (trace s1)) = S (length (filter is_sleep (trace s1)))
                 /\ Forall (fun ev => ev = EvSleep 1) (filter is_sleep (trace s1)) ->
                 let s' := snd (process_frame env f (with_cap s1 c)) in
                 length (opened_handles (trace s')) = S (length (filter is_sleep (trace s')))
                 /\ Forall (fun ev => ev = EvSleep 1) (filter is_sleep (trace s'))).
      { intros f c s1 H s'.
        pose proof (Keeps_pace_process_frame env f (with_cap s1 c)) as Hk.
        fold s' in Hk. unfold pace_obs in Hk. cbn [trace with_cap] in Hk.
        injection Hk as -> ->. exact H. }
      destruct (cap_read env (trace s) (cap s)) as [[|] fr]; cbn [fst snd].
      - assert (Hs : length (opened_handles (trace (emit_event s (EvRead (cap s) true))))
                     = S (length (filter is_sleep (trace (emit_event s (EvRead (cap s) true)))))
                     /\ Forall (fun ev => ev = EvSleep 1)
                          (filter is_sleep (trace (emit_event s (EvRead (cap s) true))))).
        { cbn [trace emit_event with_trace].
          rewrite opened_handles_app, filter_app. simpl. rewrite !app_nil_r.
          split; assumption. }
        destruct fr as [f|]; [exact (Hkeep f _ _ Hs)|exact Hs].
      - cbv zeta.
        set (second := cap_read env _ (next_handle s)).
        set (s1 := with_next_handle _ _).
        assert (Hs : length (opened_handles (trace s1))
                     = S (length (filter is_sleep (trace s1)))
                     /\ Forall (fun ev => ev = EvSleep 1) (filter is_sleep (trace s1))).
        { unfold s1. cbn [trace with_next_handle with_trace].
          rewrite opened_handles_app, filter_app. unfold reconnect_events.
          cbn [opened_handles filter is_sleep app]. rewrite !length_app. cbn [length].
          split; [lia|]. apply Forall_app. split; [exact H2|]. constructor; [reflexivity|constructor]. }
        destruct (if fst second then snd second else None) as [f|];
          [exact (Hkeep f _ _ Hs)|exact Hs]. }
    split; [exact Hgoal|intros _; exact Hgoal].
  - intros s msg [H1 H2]. cbn [trace emit_event with_trace].
    rewrite opened_handles_app, filter_app. simpl. rewrite !app_nil_r. split; assumption.
  - intros s h [H1 H2]. cbn [trace emit_event with_trace].
    rewrite opened_handles_app, filter_app. simpl. rewrite !app_nil_r. split; assumption.
  - split; [reflexivity|constructor].
  - split; [reflexivity|constructor].
Qed.
